(** * Spark monitoring recommendations notebook: metrics engine

    A shallow embedding of the analysis functions of
    [Spark Monitoring Recommedations.Notebook/notebook-content.py]:
    [compute_application_runtime], [compute_executor_wall_clock_time],
    [estimate_runtime_scaling], [generate_recommendations],
    [compute_stage_task_summary] and the per-application loop.

    Conventions of the embedding.
    - A Spark DataFrame is the list of its rows.
    - Epoch milliseconds and counters are [Z]; a nullable column is an
      [option].
    - Spark doubles and Python floats are exact rationals [Q]: sums,
      quotients and comparisons are those of the source, without rounding
      error.  Equalities between computed durations are therefore stated
      with [==] ([Qeq]).  Where the rounding of the doubles decides a
      property, the columns concerned are given in IEEE double precision
      as well (module [Binary64]).
    - A Python exception is a value of [exn]; a function that may raise
      returns a [result]. *)

From Stdlib Require Import ZArith QArith Qround Qminmax Lqa Lia.
From Stdlib Require Import List Bool String Ascii DecimalString.
From Stdlib Require Import Sorting Permutation.
From Stdlib Require PrimFloat Uint63.
From Stdlib Require Import Morphisms Setoid.
Import ListNotations.

Local Open Scope Q_scope.

(** ** Python values and exceptions *)

Inductive exn : Type :=
| ZeroDivisionError
| TypeError
| AnalysisException.

Inductive result (A : Type) : Type :=
| Ok (a : A)
| Raise (e : exn).

Arguments Ok {A} a.
Arguments Raise {A} e.

Definition bind {A B : Type} (r : result A) (k : A -> result B) : result B :=
  match r with
  | Ok a => k a
  | Raise e => Raise e
  end.

Notation "x <- r ;; k" := (bind r (fun x => k))
  (at level 61, r at next level, right associativity).

(** [q == 0] as a boolean: the truth test [not q] of a Python number. *)
Definition Qis_zero (q : Q) : bool := Qeq_bool q 0.

Definition Qltb (x y : Q) : bool := negb (Qle_bool y x).

(** Python [x / y] on floats. *)
Definition py_div (x y : Q) : result Q :=
  if Qis_zero y then Raise ZeroDivisionError else Ok (x / y).

(** Python [max(a, b)] and [min(a, b)]: the first argument wins ties. *)
Definition py_max (a b : Q) : Q := if Qltb a b then b else a.
Definition py_min (a b : Q) : Q := if Qltb b a then b else a.

(** Python [int(x)]: truncation toward zero. *)
Definition py_int (x : Q) : Z := Z.quot (Qnum x) (Zpos (Qden x)).

(** Python [x // y] and [x % y] on floats, for [y > 0], without rounding:
    the remainder is in [0, y).  (On doubles a negative [x] of tiny
    magnitude has the remainder rounded up to [y] itself; for [x >= 0] the
    remainder is exact.) *)
Definition py_floordiv (x y : Q) : Q := inject_Z (Qfloor (x / y)).
Definition py_mod (x y : Q) : Q := x - y * inject_Z (Qfloor (x / y)).

(** Python [sum(xs)]: a left fold starting at [0]. *)
Definition py_sum (xs : list Q) : Q := fold_left Qplus xs 0.

(** Python [round(x, 2)]: nearest multiple of 1/100, ties to even. *)
Definition round_half_even (q : Q) : Z :=
  let f := Qfloor q in
  match Qcompare (q - inject_Z f) (1 # 2) with
  | Lt => f
  | Gt => (f + 1)%Z
  | Eq => if Z.even f then f else (f + 1)%Z
  end.

Definition py_round2 (q : Q) : Q := inject_Z (round_half_even (q * 100)) / 100.

(** [str(n)] of a Python int. *)
Definition str_of_Z (z : Z) : string := NilZero.string_of_int (Z.to_int z).

(** ** Spark aggregates *)

(** [sum] over a nullable column: nulls are skipped, no value gives null. *)
Fixpoint spark_sum (col : list (option Q)) : option Q :=
  match col with
  | [] => None
  | None :: rest => spark_sum rest
  | Some x :: rest =>
      match spark_sum rest with
      | None => Some x
      | Some s => Some (x + s)
      end
  end.

(** [max] over a column of doubles: null on an empty group. *)
Fixpoint spark_max (col : list Q) : option Q :=
  match col with
  | [] => None
  | x :: rest =>
      match spark_max rest with
      | None => Some x
      | Some m => Some (Qmax x m)
      end
  end.

Fixpoint spark_min (col : list Q) : option Q :=
  match col with
  | [] => None
  | x :: rest =>
      match spark_min rest with
      | None => Some x
      | Some m => Some (Qmin x m)
      end
  end.

(** [avg] over a column of doubles. *)
Definition spark_avg (col : list Q) : option Q :=
  match col with
  | [] => None
  | _ => Some (fold_right Qplus 0 col / inject_Z (Z.of_nat (List.length col)))
  end.

(** [min]/[max] over a nullable integer column. *)
Fixpoint spark_minZ (col : list (option Z)) : option Z :=
  match col with
  | [] => None
  | None :: rest => spark_minZ rest
  | Some x :: rest =>
      match spark_minZ rest with
      | None => Some x
      | Some m => Some (Z.min x m)
      end
  end.

Fixpoint spark_maxZ (col : list (option Z)) : option Z :=
  match col with
  | [] => None
  | None :: rest => spark_maxZ rest
  | Some x :: rest =>
      match spark_maxZ rest with
      | None => Some x
      | Some m => Some (Z.max x m)
      end
  end.

(** [groupBy(key)]: one group per distinct key, holding the rows of that key. *)
Section GroupBy.
Context {R K : Type}.
Variable K_eq_dec : forall a b : K, {a = b} + {a <> b}.
Variable key : R -> K.

Definition group_rows (k : K) (rows : list R) : list R :=
  filter (fun r => if K_eq_dec (key r) k then true else false) rows.

Definition group_keys (rows : list R) : list K :=
  nodup K_eq_dec (map key rows).

Definition groupBy (rows : list R) : list (K * list R) :=
  map (fun k => (k, group_rows k rows)) (group_keys rows).
End GroupBy.

(** [orderBy]: a stable sort; [leb a b] says that row [a] may come before
    row [b]. *)
Section OrderBy.
Context {R : Type}.
Variable leb : R -> R -> bool.

Fixpoint insert_row (x : R) (sorted : list R) : list R :=
  match sorted with
  | [] => [x]
  | y :: rest => if leb x y then x :: sorted else y :: insert_row x rest
  end.

Definition orderBy (rows : list R) : list R := fold_right insert_row [] rows.
End OrderBy.

(** ** Data model *)

(** The payload of a [SparkListenerTaskEnd] event, with the field names of
    the event log (the columns read by the notebook). *)
Record TaskRecord : Type := mkTask {
  Stage_ID : Z;
  Stage_Attempt_ID : Z;
  Task_ID : Z;
  Executor_ID : string;
  Launch_Time : option Z;
  Finish_Time : option Z;
  Failed : bool;
  Executor_Run_Time : Z
}.

Inductive EventRecord : Type :=
| SparkListenerApplicationStart (Timestamp : Z)
| SparkListenerApplicationEnd (Timestamp : Z)
| SparkListenerTaskEnd (task : TaskRecord)
| OtherEvent.

Definition event_log : Type := list EventRecord.

(** A metadata cell: a boolean flag, a string, or null. *)
Inductive value : Type :=
| VBool (b : bool)
| VStr (s : string)
| VNull.

(** The metadata frame of one application: its columns, each with the value
    of the first row. *)
Definition metadata : Type := list (string * value).

(** ** compute_application_runtime *)

Definition start_rows (event_log_df : event_log) : list Z :=
  flat_map (fun e => match e with
                     | SparkListenerApplicationStart ts => [ts]
                     | _ => []
                     end) event_log_df.

Definition end_rows (event_log_df : event_log) : list Z :=
  flat_map (fun e => match e with
                     | SparkListenerApplicationEnd ts => [ts]
                     | _ => []
                     end) event_log_df.

Definition compute_application_runtime (event_log_df : event_log) : Q :=
  match firstn 1 (start_rows event_log_df), firstn 1 (end_rows event_log_df) with
  | start_time :: _, end_time :: _ =>
      inject_Z end_time / 1000 - inject_Z start_time / 1000
  | _, _ => 0
  end.

(** ** compute_executor_wall_clock_time *)

Definition interval : Type := (Q * Q)%type.

Definition task_end_rows (event_log_df : event_log) : list TaskRecord :=
  flat_map (fun e => match e with
                     | SparkListenerTaskEnd t => [t]
                     | _ => []
                     end) event_log_df.

(** [select(Launch Time, Finish Time).dropna()] followed by the division of
    both columns by 1000: a row with a missing time gives no interval. *)
Definition task_interval (t : TaskRecord) : list interval :=
  match Launch_Time t, Finish_Time t with
  | Some s, Some e => [(inject_Z s / 1000, inject_Z e / 1000)]
  | _, _ => []
  end.

Definition start_leb (a b : interval) : bool := Qle_bool (fst a) (fst b).

(** One iteration of the loop over the ordered rows: [merged_intervals] is
    the Python list, whose last element is extended in place or followed by
    a new interval. *)
Definition merge_step (merged_intervals : list interval) (row : interval)
  : list interval :=
  let '(start, end_) := row in
  match rev merged_intervals with
  | [] => merged_intervals ++ [(start, end_)]
  | (last_start, last_end) :: _ =>
      if Qltb last_end start
      then merged_intervals ++ [(start, end_)]
      else removelast merged_intervals ++ [(last_start, py_max last_end end_)]
  end.

Definition merge_intervals (rows : list interval) : list interval :=
  fold_left merge_step rows [].

Definition interval_length (i : interval) : Q := snd i - fst i.

(** The ordering, the merge pass and the final sum (lines 104-115): the
    Interval Merger. *)
Definition interval_merger (intervals : list interval) : Q :=
  py_sum (map interval_length (merge_intervals (orderBy start_leb intervals))).

Definition compute_executor_wall_clock_time (event_log_df : event_log) : Q :=
  interval_merger (flat_map task_interval (task_end_rows event_log_df)).

(** ** Rows of [tasks_df] *)

(** The columns selected from a task-end event (the input/output and shuffle
    volume columns, which feed only the volume statistics, are left out). *)
Record task_row : Type := mkRow {
  stage_id : Z;
  stage_attempt_id : Z;
  task_id : Z;
  executor_id : string;
  launch_time : option Z;
  finish_time : option Z;
  failed : bool;
  duration_sec : Q
}.

Definition select_task (t : TaskRecord) : task_row :=
  {| stage_id := Stage_ID t;
     stage_attempt_id := Stage_Attempt_ID t;
     task_id := Task_ID t;
     executor_id := Executor_ID t;
     launch_time := Launch_Time t;
     finish_time := Finish_Time t;
     failed := Failed t;
     duration_sec := inject_Z (Executor_Run_Time t) / 1000 |}.

(** [.filter(col("failed") == False)] *)
Definition tasks_df_of (event_log_df : event_log) : list task_row :=
  filter (fun r => negb (failed r)) (map select_task (task_end_rows event_log_df)).

(** [withColumn("executor_run_time_ms", col("duration_sec") * 1000)] *)
Definition executor_run_time_ms (r : task_row) : Q := duration_sec r * 1000.

(** ** estimate_runtime_scaling *)

Record ScalingPrediction : Type := mkPrediction {
  Executor_Count : Z;
  Executor_Multiplier : string;
  Estimated_Executor_WallClock : string;
  Estimated_Total_Duration : string
}.

Definition multipliers : list Q := [1; 2; 3; 4; 5].

(** [f"{int(x // 60)}m {int(x % 60)}s"] *)
Definition format_min_sec (x : Q) : string :=
  (str_of_Z (py_int (py_floordiv x 60)) ++ "m "
   ++ str_of_Z (py_int (py_mod x 60)) ++ "s")%string.

Definition new_executors_of (current_executors : Z) (multiplier : Q) : Z :=
  Z.max 1 (py_int (inject_Z current_executors * multiplier)).

Definition estimated_executor_sec_of
  (critical_path_ms parallelizable_ms : Q) (new_executors : Z) : Q :=
  (critical_path_ms + parallelizable_ms / inject_Z new_executors) / 1000.

(** The body of the loop over the multipliers. *)
Definition prediction_row
  (critical_path_ms parallelizable_ms driver_wall_clock_sec : Q)
  (current_executors : Z) (multiplier : Q) : result ScalingPrediction :=
  let new_executors := new_executors_of current_executors multiplier in
  let estimated_executor_sec :=
    estimated_executor_sec_of critical_path_ms parallelizable_ms new_executors in
  ratio <- py_div driver_wall_clock_sec
                  (driver_wall_clock_sec + estimated_executor_sec) ;;
  let overlap_weight := 1 - ratio in
  let app_duration_sec :=
    py_max driver_wall_clock_sec estimated_executor_sec
    + overlap_weight * py_min driver_wall_clock_sec estimated_executor_sec in
  Ok {| Executor_Count := new_executors;
        Executor_Multiplier := (str_of_Z (py_int (multiplier * 100)) ++ "%")%string;
        Estimated_Executor_WallClock := format_min_sec estimated_executor_sec;
        Estimated_Total_Duration := format_min_sec app_duration_sec |}.

(** A [for] loop that appends one row per element and stops at the first
    exception. *)
Fixpoint for_each {A B : Type} (f : A -> result B) (xs : list A)
  : result (list B) :=
  match xs with
  | [] => Ok []
  | x :: rest =>
      y <- f x ;;
      ys <- for_each f rest ;;
      Ok (y :: ys)
  end.

Definition estimate_runtime_scaling
  (task_df : list task_row)
  (executor_wall_clock_sec driver_wall_clock_sec : Q)
  (current_executors : Z) (critical_path_sec : Q)
  : result (list ScalingPrediction) :=
  let critical_path_ms := critical_path_sec * 1000 in
  let total_task_time_ms :=
    spark_sum (map (fun r => Some (executor_run_time_ms r)) task_df) in
  (* [None - float] is a TypeError *)
  parallelizable_ms <-
    match total_task_time_ms with
    | Some total => Ok (total - critical_path_ms)
    | None => Raise TypeError
    end ;;
  let total_is_falsy :=
    match total_task_time_ms with
    | Some total => Qis_zero total
    | None => true
    end in
  if total_is_falsy || Qis_zero executor_wall_clock_sec then Ok []
  else
    let total_wall_clock_sec := executor_wall_clock_sec + driver_wall_clock_sec in
    driver_ratio <- py_div driver_wall_clock_sec total_wall_clock_sec ;;
    for_each (prediction_row critical_path_ms parallelizable_ms
                             driver_wall_clock_sec current_executors)
             multipliers.

(** ** generate_recommendations *)

Definition rec_driver_heavy : string :=
  "This Spark job is driver-heavy (driver time > 70%). Consider parallelizing more operations to offload work to executors.".

Definition rec_enable_nee : string :=
  "Native Execution Engine (NEE) is disabled, but executors are doing significant work. Enable NEE for performance gains without added cost.".

Definition rec_python_native : string :=
  "This appears to be Python-native code running entirely on the driver. Run on Fabric Python kernel or refactor into Spark code for better parallelism.".

Definition rec_high_concurrency : string :=
  "High Concurrency is disabled for Fabric Notebook. Consider enabling High Concurrency mode to pack more notebooks into fewer sessions and save costs.".

Definition rec_none : string := "No performance recommendations found.".

(** [name in metadata_df.columns], then [select(name).first()[0]]: [None]
    when the column is not there. *)
Fixpoint column (name : string) (metadata_df : metadata) : option value :=
  match metadata_df with
  | [] => None
  | (c, v) :: rest => if String.eqb c name then Some v else column name rest
  end.

Definition value_eqb (a b : value) : bool :=
  match a, b with
  | VBool x, VBool y => Bool.eqb x y
  | VStr x, VStr y => String.eqb x y
  | VNull, VNull => true
  | _, _ => false
  end.

(** Python [x in xs] *)
Definition value_in (x : value) (xs : list value) : bool :=
  existsb (value_eqb x) xs.

Definition rule1 (driver_pct : Q) : list string :=
  if Qltb 70 driver_pct then [rec_driver_heavy] else [].

Definition rule2 (executor_pct : Q) (metadata_df : metadata) : list string :=
  match column "spark.native.enabled" metadata_df with
  | Some nee_enabled =>
      if value_in nee_enabled [VBool false; VStr "false"] && Qltb 50 executor_pct
      then [rec_enable_nee] else []
  | None => []
  end.

Definition rule3 (driver_pct : Q) : list string :=
  if Qltb 99 driver_pct then [rec_python_native] else [].

Fixpoint has_dot (name : string) : bool :=
  match name with
  | EmptyString => false
  | String c rest => if Ascii.eqb c "." then true else has_dot rest
  end.

(** [metadata_df.select(name).first()[0]] for a name written without
    backticks.  Spark splits such a name at its dots into a field path; the
    metadata frame has no struct column and no alias, so a path of several
    parts resolves to nothing and the analysis fails, as it does for a name
    that is no column.  (Line 187 writes its name between backticks, which
    keeps the dots in the name: [rule2] reads the cell.) *)
Definition select_unquoted (name : string) (metadata_df : metadata) : result value :=
  if has_dot name then Raise AnalysisException
  else match column name metadata_df with
       | Some v => Ok v
       | None => Raise AnalysisException
       end.

Definition rule4 (driver_pct : Q) (metadata_df : metadata) : result (list string) :=
  match column "spark.synapse.session.tag.HIGH_CONCURRENCY_SESSION_TAG" metadata_df,
        column "artifactType" metadata_df with
  | Some _, Some _ =>
      hc_enabled <-
        select_unquoted "spark.synapse.session.tag.HIGH_CONCURRENCY_SESSION_TAG"
                        metadata_df ;;
      artifact_type <-
        (if Qltb driver_pct 98
         then select_unquoted "artifactType" metadata_df
         else Ok VNull) ;;
      Ok (if value_in hc_enabled [VBool false; VStr "false"; VNull]
             && value_eqb artifact_type (VStr "SynapseNotebook")
          then [rec_high_concurrency] else [])
  | _, _ => Ok []
  end.

Record Recommendation : Type := mkRec {
  rec_app_id : string;
  recommendation : string
}.

(** [app_id] is the notebook's global of that name, the application being
    processed; the function never reads [task_df]. *)
Definition generate_recommendations
  (app_id : string)
  (app_duration_sec driver_wall_clock_sec executor_wall_clock_sec : Q)
  (metadata_df : metadata) (task_df : list task_row)
  : result (list Recommendation) :=
  driver_pct <- py_div (100 * driver_wall_clock_sec) app_duration_sec ;;
  executor_pct <- py_div (100 * executor_wall_clock_sec) app_duration_sec ;;
  let recs123 := rule1 driver_pct ++ rule2 executor_pct metadata_df
                 ++ rule3 driver_pct in
  recs4 <- rule4 driver_pct metadata_df ;;
  let recs := recs123 ++ recs4 in
  let rec_rows := map (mkRec app_id) recs in
  Ok (match rec_rows with
      | [] => [mkRec app_id rec_none]
      | _ => rec_rows
      end).

(** ** compute_stage_task_summary *)

Definition stage_key : Type := (Z * Z)%type.

Definition stage_key_eq_dec (a b : stage_key) : {a = b} + {a <> b}.
Proof. decide equality; apply Z.eq_dec. Defined.

Definition key_of (r : task_row) : stage_key := (stage_id r, stage_attempt_id r).

(** A row of [stage_duration_df]. *)
Record StageDuration : Type := mkDuration {
  sd_key : stage_key;
  sd_min_launch_time : option Z;
  sd_max_finish_time : option Z;
  sd_num_executors : Z;
  sd_stage_execution_time_sec : option Q
}.

(** [expr("(max_finish_time - min_launch_time) / 1000")]: null when either
    side is null. *)
Definition execution_window (max_finish min_launch : option Z) : option Q :=
  match max_finish, min_launch with
  | Some f, Some l => Some (inject_Z (f - l) / 1000)
  | _, _ => None
  end.

Definition count_distinct (xs : list string) : Z :=
  Z.of_nat (List.length (nodup string_dec xs)).

Definition stage_duration_df_of (tasks_df : list task_row) : list StageDuration :=
  map (fun '(k, g) =>
         let min_launch := spark_minZ (map launch_time g) in
         let max_finish := spark_maxZ (map finish_time g) in
         {| sd_key := k;
            sd_min_launch_time := min_launch;
            sd_max_finish_time := max_finish;
            sd_num_executors := count_distinct (map executor_id g);
            sd_stage_execution_time_sec := execution_window max_finish min_launch |})
      (groupBy stage_key_eq_dec key_of tasks_df).

(** A row of [stage_summary_df] joined with [stage_duration_df]; the columns
    of the right side are null when the left join finds no partner.  The
    approximate percentile and the averages and maxima of the volume columns
    are left out with those columns. *)
Record StageSummary : Type := mkSummary {
  ss_key : stage_key;
  num_tasks : Z;
  successful_tasks : Z;
  failed_tasks : Z;
  min_duration_sec : option Q;
  max_duration_sec : option Q;
  avg_duration_sec : option Q;
  min_launch_time : option Z;
  max_finish_time : option Z;
  num_executors : option Z;
  stage_execution_time_sec : option Q
}.

(** [count(expr("CASE WHEN c THEN 1 END"))] *)
Definition count_when (c : task_row -> bool) (g : list task_row) : Z :=
  Z.of_nat (List.length (filter c g)).

(** The aggregation of one group of [stage_summary_df], completed with the
    columns of its partner [d] in the join. *)
Definition summary_row (k : stage_key) (g : list task_row) (d : option StageDuration)
  : StageSummary :=
  {| ss_key := k;
     num_tasks := Z.of_nat (List.length (map task_id g));
     successful_tasks := count_when (fun r => Bool.eqb (failed r) false) g;
     failed_tasks := count_when (fun r => Bool.eqb (failed r) true) g;
     min_duration_sec := spark_min (map duration_sec g);
     max_duration_sec := spark_max (map duration_sec g);
     avg_duration_sec := spark_avg (map duration_sec g);
     min_launch_time := match d with Some d => sd_min_launch_time d | None => None end;
     max_finish_time := match d with Some d => sd_max_finish_time d | None => None end;
     num_executors := option_map sd_num_executors d;
     stage_execution_time_sec :=
       match d with Some d => sd_stage_execution_time_sec d | None => None end |}.

(** [stage_summary_df.join(stage_duration_df, on=[...], how="left")] *)
Definition joined_summary_df (tasks_df : list task_row) : list StageSummary :=
  flat_map (fun '(k, g) =>
              match filter (fun d => if stage_key_eq_dec (sd_key d) k then true else false)
                           (stage_duration_df_of tasks_df) with
              | [] => [summary_row k g None]
              | partners => map (fun d => summary_row k g (Some d)) partners
              end)
           (groupBy stage_key_eq_dec key_of tasks_df).

(** Descending order on a nullable double: nulls come last. *)
Definition desc_leb (a b : option Q) : bool :=
  match a, b with
  | Some x, Some y => Qle_bool y x
  | Some _, None => true
  | None, Some _ => false
  | None, None => true
  end.

Definition window_desc (a b : StageSummary) : bool :=
  desc_leb (stage_execution_time_sec a) (stage_execution_time_sec b).

(** [.orderBy(col("stage_execution_time_sec").desc()).limit(5)] *)
Definition final_summary_df_of (tasks_df : list task_row) : list StageSummary :=
  firstn 5 (orderBy window_desc (joined_summary_df tasks_df)).

(** [per_stage_max_df]: the longest task of every [stage_id]. *)
Definition per_stage_max_df_of (tasks_df : list task_row) : list (Z * option Q) :=
  map (fun '(k, g) => (k, spark_max (map duration_sec g)))
      (groupBy Z.eq_dec stage_id tasks_df).

Definition critical_path_time_sec (tasks_df : list task_row) : option Q :=
  spark_sum (map snd (per_stage_max_df_of tasks_df)).

Record MetricsResult : Type := mkMetric {
  metric_app_id : string;
  metric : string;
  metric_value : Q
}.

(** The [metrics] list; [round(None, 2)] is a TypeError. *)
Definition metrics_of
  (app_duration_sec executor_wall_clock_sec driver_wall_clock_sec : Q)
  (max_executors : Z) (critical_path_sec : option Q)
  : result (list (string * Q)) :=
  executor_pct <- py_div (100 * executor_wall_clock_sec) app_duration_sec ;;
  driver_pct <- py_div (100 * driver_wall_clock_sec) app_duration_sec ;;
  critical_path_rounded <-
    match critical_path_sec with
    | Some c => Ok (py_round2 c)
    | None => Raise TypeError
    end ;;
  Ok [ ("Application Duration (sec)"%string, py_round2 app_duration_sec);
       ("Executor Wall Clock Time (sec)"%string, py_round2 executor_wall_clock_sec);
       ("Driver Wall Clock Time (sec)"%string, py_round2 driver_wall_clock_sec);
       ("Executor Time % of App Time"%string, py_round2 executor_pct);
       ("Driver Time % of App Time"%string, py_round2 driver_pct);
       ("Max Executors"%string, inject_Z max_executors);
       ("Critical Path Time (sec)"%string, critical_path_rounded) ].

(** What the function prints. *)
Inductive note : Type :=
| CriticalPathTime (sec : Q)
| CriticalPathNotComputed.

(** Python truth value of [critical_path_sec]: null and 0.0 are false. *)
Definition truthy (x : option Q) : bool :=
  match x with
  | Some q => negb (Qis_zero q)
  | None => false
  end.

(** Lines 306-311: the printed note and the predictions. *)
Definition predictions_of
  (task_df : list task_row)
  (executor_wall_clock_sec driver_wall_clock_sec : Q)
  (max_executors : Z) (critical_path_sec : option Q)
  : note * result (list ScalingPrediction) :=
  match critical_path_sec with
  | Some c =>
      if truthy critical_path_sec
      then (CriticalPathTime c,
            estimate_runtime_scaling task_df executor_wall_clock_sec
                                     driver_wall_clock_sec max_executors c)
      else (CriticalPathNotComputed, Ok [])
  | None => (CriticalPathNotComputed, Ok [])
  end.

Record run_output : Type := mkOutput {
  final_summary_df : list StageSummary;
  run_metrics_df : list MetricsResult;
  run_predictions_df : list ScalingPrediction;
  run_recommendations_df : list Recommendation
}.

Definition compute_stage_task_summary
  (event_log_df : event_log) (metadata_df : metadata) (app_id : string)
  : list note * result run_output :=
  let tasks_df := tasks_df_of event_log_df in
  let final_summary := final_summary_df_of tasks_df in
  let app_duration_sec := compute_application_runtime event_log_df in
  let executor_wall_clock_sec := compute_executor_wall_clock_time event_log_df in
  let driver_wall_clock_sec := app_duration_sec - executor_wall_clock_sec in
  let max_executors := count_distinct (map executor_id tasks_df) in
  let critical_path_sec := critical_path_time_sec tasks_df in
  let '(printed, predictions) :=
    predictions_of tasks_df executor_wall_clock_sec driver_wall_clock_sec
                   max_executors critical_path_sec in
  ([printed],
   predictions_df <- predictions ;;
   metrics <- metrics_of app_duration_sec executor_wall_clock_sec
                         driver_wall_clock_sec max_executors critical_path_sec ;;
   let metrics_rows := map (fun '(k, v) => mkMetric app_id k v) metrics in
   recommendations <- generate_recommendations app_id app_duration_sec
                        driver_wall_clock_sec executor_wall_clock_sec metadata_df
                        tasks_df ;;
   Ok {| final_summary_df := final_summary;
         run_metrics_df := metrics_rows;
         run_predictions_df := predictions_df;
         run_recommendations_df := recommendations |}).

(** ** The per-application loop *)

Inductive error_text : Type :=
| MissingStartEvent
| ExceptionText (e : exn).

(** An element of [summary_dfs]: the stage rows of a run, or its error row. *)
Inductive summary_frame : Type :=
| StageRows (rows : list StageSummary)
| ErrorRow (applicationID : string) (error : error_text).

Record batch : Type := mkBatch {
  summary_dfs : list summary_frame;
  metrics_df : list (list MetricsResult);
  predictions_df : list (list ScalingPrediction);
  recommendations_df : list (list Recommendation);
  stdout : list note
}.

Definition empty_batch : batch := mkBatch [] [] [] [] [].

Definition rows_of_app {A : Type} (app_id : string) (df : list (string * A))
  : list A :=
  map snd (filter (fun row => String.eqb (fst row) app_id) df).

(** The body of [for app_id in app_ids]. *)
Definition process_application
  (event_log_df : list (string * EventRecord))
  (metadata_df : list (string * metadata))
  (st : batch) (app_id : string) : batch :=
  let filtered_event_log_df := rows_of_app app_id event_log_df in
  let filtered_metadata_df :=
    match rows_of_app app_id metadata_df with
    | first_row :: _ => first_row
    | [] => []
    end in
  match firstn 1 (start_rows filtered_event_log_df) with
  | [] =>
      {| summary_dfs := summary_dfs st ++ [ErrorRow app_id MissingStartEvent];
         metrics_df := metrics_df st;
         predictions_df := predictions_df st;
         recommendations_df := recommendations_df st;
         stdout := stdout st |}
  | _ =>
      let '(printed, outcome) :=
        compute_stage_task_summary filtered_event_log_df filtered_metadata_df app_id in
      match outcome with
      | Ok out =>
          {| summary_dfs := summary_dfs st ++ [StageRows (final_summary_df out)];
             metrics_df := metrics_df st ++ [run_metrics_df out];
             predictions_df := predictions_df st ++ [run_predictions_df out];
             recommendations_df := recommendations_df st ++ [run_recommendations_df out];
             stdout := stdout st ++ printed |}
      | Raise e =>
          {| summary_dfs := summary_dfs st ++ [ErrorRow app_id (ExceptionText e)];
             metrics_df := metrics_df st;
             predictions_df := predictions_df st;
             recommendations_df := recommendations_df st;
             stdout := stdout st ++ printed |}
      end
  end.

Definition app_ids_of (metadata_df : list (string * metadata)) : list string :=
  nodup string_dec (map fst metadata_df).

Definition process_applications
  (event_log_df : list (string * EventRecord))
  (metadata_df : list (string * metadata))
  (app_ids : list string) (st : batch) : batch :=
  fold_left (process_application event_log_df metadata_df) app_ids st.

Definition run_notebook
  (event_log_df : list (string * EventRecord))
  (metadata_df : list (string * metadata)) : batch :=
  process_applications event_log_df metadata_df (app_ids_of metadata_df) empty_batch.

(** ** The Interval Merger as the specification words it

    Section 4.1: sort by start ascending; keep a running merged interval;
    a next interval whose start is [<=] the running end extends it to the
    larger end, any other closes the running interval and starts a new one;
    the result is the sum of [end - start] over the closed intervals, and 0
    on an empty input. *)
Module IntervalMergerSpec.

Fixpoint merge_from (cur : interval) (rest : list interval) : Q :=
  match rest with
  | [] => snd cur - fst cur
  | next :: rest' =>
      if Qle_bool (fst next) (snd cur)
      then merge_from (fst cur, Qmax (snd cur) (snd next)) rest'
      else (snd cur - fst cur) + merge_from next rest'
  end.

Definition coverage (intervals : list interval) : Q :=
  match orderBy start_leb intervals with
  | [] => 0
  | first :: rest => merge_from first rest
  end.

End IntervalMergerSpec.

(** ** Vocabulary of the statements *)

Definition Qsum (xs : list Q) : Q := fold_right Qplus 0 xs.

(** The sum of the raw interval lengths. *)
Definition raw_total (intervals : list interval) : Q :=
  Qsum (map interval_length intervals).

Definition valid_interval (i : interval) : Prop := fst i <= snd i.

(** Two closed intervals overlap or touch: they have a common point. *)
Definition overlap_or_touch (a b : interval) : Prop :=
  Qmax (fst a) (fst b) <= Qmin (snd a) (snd b).

(** Two intervals share a segment of positive length. *)
Definition share_segment (a b : interval) : Prop :=
  Qmax (fst a) (fst b) < Qmin (snd a) (snd b).

(** No two entries (at distinct positions) of a list are related by [P]. *)
Definition no_two {A : Type} (P : A -> A -> Prop) (l : list A) : Prop :=
  ForallOrdPairs (fun a b => ~ P a b) l.

(** The list held by the merge loop once [cur] is its last element and
    [rows] are still to come: the closed intervals, then the final one. *)
Fixpoint merged_from (cur : interval) (rows : list interval) : list interval :=
  match rows with
  | [] => [cur]
  | (start, end_) :: rest =>
      if Qltb (snd cur) start
      then cur :: merged_from (start, end_) rest
      else merged_from (fst cur, py_max (snd cur) end_) rest
  end.

Definition start_le (a b : interval) : Prop := fst a <= fst b.

(** Every interval read from the log of tasks that have both times. *)
Definition all_task_intervals (event_log_df : event_log) : list interval :=
  flat_map task_interval (task_end_rows event_log_df).

(** The intervals of the tasks that did not fail. *)
Definition non_failed_task_intervals (event_log_df : event_log) : list interval :=
  flat_map task_interval
           (filter (fun t => negb (Failed t)) (task_end_rows event_log_df)).

(** The same event with the failure flag of a task set to [b]. *)
Definition mark_failed (b : bool) (e : EventRecord) : EventRecord :=
  match e with
  | SparkListenerTaskEnd t =>
      SparkListenerTaskEnd
        (mkTask (Stage_ID t) (Stage_Attempt_ID t) (Task_ID t) (Executor_ID t)
                (Launch_Time t) (Finish_Time t) b (Executor_Run_Time t))
  | other => other
  end.

(** The value of a nullable aggregate, with 0 for null. *)
Definition or_zero (x : option Q) : Q :=
  match x with
  | Some q => q
  | None => 0
  end.


(** The row of [stage_duration_df] for the group of key [k]. *)
Definition stage_duration_row (tasks_df : list task_row) (k : stage_key) : StageDuration :=
  let g := group_rows stage_key_eq_dec key_of k tasks_df in
  let min_launch := spark_minZ (map launch_time g) in
  let max_finish := spark_maxZ (map finish_time g) in
  {| sd_key := k;
     sd_min_launch_time := min_launch;
     sd_max_finish_time := max_finish;
     sd_num_executors := count_distinct (map executor_id g);
     sd_stage_execution_time_sec := execution_window max_finish min_launch |}.

(** ** Vocabulary of the further properties *)

(** Interval [a] ends before interval [b] starts. *)
Definition gap (a b : interval) : Prop := snd a < fst b.

(** The merged intervals of the notebook: the list whose lengths
    [interval_merger] sums. *)
Definition merged_intervals_of (intervals : list interval) : list interval :=
  merge_intervals (orderBy start_leb intervals).

(** [app_duration_sec - executor_wall_clock_sec] of
    [compute_stage_task_summary]. *)
Definition driver_wall_clock_sec_of (event_log_df : event_log) : Q :=
  compute_application_runtime event_log_df
  - compute_executor_wall_clock_time event_log_df.

(** The estimated total duration of one prediction row, before formatting
    (the [app_duration_sec] of the loop body). *)
Definition estimated_total_sec_of (driver_wall_clock_sec estimated_executor_sec : Q) : Q :=
  py_max driver_wall_clock_sec estimated_executor_sec
  + (1 - driver_wall_clock_sec / (driver_wall_clock_sec + estimated_executor_sec))
    * py_min driver_wall_clock_sec estimated_executor_sec.

(** The two numbers printed by [format_min_sec]. *)
Definition minutes_of (x : Q) : Z := py_int (py_floordiv x 60).
Definition seconds_of (x : Q) : Z := py_int (py_mod x 60).

(** The texts of a recommendation frame. *)
Definition texts_of (recs : list Recommendation) : list string :=
  map recommendation recs.

(** The columns of the frame returned by [extract_app_metadata]: the twelve
    selected columns, then the column added by [withColumn]. *)
Definition app_metadata_columns : list string :=
  [ "applicationId"; "applicationName"; "artifactId"; "artifactType";
    "capacityId"; "executorMax"; "executorMin"; "fabricEnvId"; "fabricLivyId";
    "fabricTenantId"; "fabricWorkspaceId"; "isHighConcurrencyEnabled";
    "spark.native.enabled" ]%string.

Definition Zsum (xs : list Z) : Z := fold_right Z.add 0%Z xs.

(** ** The combination of the per-application frames (lines 474-514) *)

(** The union of the frames of a list, starting from its first element;
    [dfs[0]] on an empty list is an IndexError.  All frames of one list
    have the same columns, so [unionByName] appends the rows. *)
Inductive combined (A : Type) : Type :=
| Combined (rows : list A)
| IndexError.

Arguments Combined {A} rows.
Arguments IndexError {A}.

Definition union_all {A : Type} (dfs : list (list A)) : combined A :=
  match dfs with
  | [] => IndexError
  | first :: rest => Combined (fold_left (fun acc df => acc ++ df) rest first)
  end.

(** [metrics_df_combined]: every element of [metrics_df] is a Spark frame,
    so the conversion loop leaves the list as it is. *)
Definition metrics_df_combined (b : batch) : combined MetricsResult :=
  union_all (metrics_df b).

(** Field by field concatenation of two batches. *)
Definition batch_app (a b : batch) : batch :=
  {| summary_dfs := summary_dfs a ++ summary_dfs b;
     metrics_df := metrics_df a ++ metrics_df b;
     predictions_df := predictions_df a ++ predictions_df b;
     recommendations_df := recommendations_df a ++ recommendations_df b;
     stdout := stdout a ++ stdout b |}.

Definition is_error_row (frame : summary_frame) : bool :=
  match frame with
  | ErrorRow _ _ => true
  | StageRows _ => false
  end.

(** What the loop keeps true of the batch. *)
Definition batch_aligned (b : batch) : Prop :=
  List.length (metrics_df b) = List.length (predictions_df b)
  /\ List.length (predictions_df b) = List.length (recommendations_df b)
  /\ (List.length (metrics_df b)
      + List.length (filter is_error_row (summary_dfs b))
      = List.length (summary_dfs b))%nat
  /\ Forall (fun frame => List.length frame = 7%nat) (metrics_df b).

(** ** The critical path on the integer run times

    Section 4.3 of the specification, on the run times as the event log
    holds them (integer milliseconds): group the non-failed tasks by stage
    id, take the maximum run time of every stage, sum the maxima. *)
Module CriticalPathSpec.

Fixpoint max_run_time_ms (stage_tasks : list TaskRecord) : Z :=
  match stage_tasks with
  | [] => 0%Z
  | t :: rest =>
      match rest with
      | [] => Executor_Run_Time t
      | _ => Z.max (Executor_Run_Time t) (max_run_time_ms rest)
      end
  end.

Definition critical_path_ms (tasks : list TaskRecord) : Z :=
  Zsum (map (fun '(_, stage_tasks) => max_run_time_ms stage_tasks)
            (groupBy Z.eq_dec Stage_ID tasks)).


End CriticalPathSpec.

(** ** The critical path and the total task time in binary64

    The same columns as the program computes them, in IEEE double
    precision: [duration_sec] of line 225, the critical path of lines
    291-293, and [critical_path_ms] and [total_task_time_ms] of lines
    119-120.  Sums run in row order. *)
Module Binary64.

(** A long read as a double (exact below 2^53; run times are not negative). *)
Definition of_long (z : Z) : PrimFloat.float :=
  PrimFloat.of_uint63 (Uint63.of_Z z).

Definition duration_sec (t : TaskRecord) : PrimFloat.float :=
  PrimFloat.div (of_long (Executor_Run_Time t)) (of_long 1000).

Definition executor_run_time_ms (t : TaskRecord) : PrimFloat.float :=
  PrimFloat.mul (duration_sec t) (of_long 1000).

Definition spark_sum (col : list PrimFloat.float) : option PrimFloat.float :=
  match col with
  | [] => None
  | x :: rest => Some (fold_left PrimFloat.add rest x)
  end.

Definition spark_max (col : list PrimFloat.float) : option PrimFloat.float :=
  match col with
  | [] => None
  | x :: rest => Some (fold_left (fun m y => if PrimFloat.ltb m y then y else m) rest x)
  end.

Definition critical_path_time_sec (tasks : list TaskRecord) : option PrimFloat.float :=
  spark_sum
    (flat_map (fun '(_, stage_tasks) =>
                 match spark_max (map duration_sec stage_tasks) with
                 | Some m => [m]
                 | None => []
                 end)
              (groupBy Z.eq_dec Stage_ID tasks)).

Definition critical_path_ms (critical_path_sec : PrimFloat.float) : PrimFloat.float :=
  PrimFloat.mul critical_path_sec (of_long 1000).

Definition total_task_time_ms (tasks : list TaskRecord) : option PrimFloat.float :=
  spark_sum (map executor_run_time_ms tasks).

End Binary64.

(** ** The window of a stage, read from its tasks *)




(** * Properties *)

(** ** Arithmetic of the Python helpers *)

Lemma Qltb_lt (x y : Q) : Qltb x y = true <-> x < y.
Proof.
  unfold Qltb. rewrite negb_true_iff.
  destruct (Qle_bool y x) eqn:E.
  - apply Qle_bool_iff in E. split; [discriminate | lra].
  - split; [intros _ | reflexivity].
    destruct (Qlt_le_dec x y) as [H | H]; [exact H | ].
    apply Qle_bool_iff in H. congruence.
Qed.

Lemma Qltb_ge (x y : Q) : Qltb x y = false <-> y <= x.
Proof.
  unfold Qltb. rewrite negb_false_iff. apply Qle_bool_iff.
Qed.

Lemma Qis_zero_true (q : Q) : Qis_zero q = true <-> q == 0.
Proof. apply Qeq_bool_iff. Qed.

Lemma Qis_zero_false (q : Q) : Qis_zero q = false <-> ~ q == 0.
Proof.
  unfold Qis_zero. split.
  - apply Qeq_bool_neq.
  - intros H. destruct (Qeq_bool q 0) eqn:E; [ | reflexivity].
    apply Qeq_bool_iff in E. contradiction.
Qed.

Lemma py_max_Qmax (a b : Q) : py_max a b = Qmax a b.
Proof.
  unfold py_max, Qmax, GenericMinMax.gmax.
  destruct (Qcompare a b) eqn:C; destruct (Qltb a b) eqn:E; try reflexivity.
  - apply Qeq_alt in C. apply Qltb_lt in E. lra.
  - apply Qlt_alt in C. apply Qltb_ge in E. lra.
  - apply Qgt_alt in C. apply Qltb_lt in E. lra.
Qed.

Lemma py_sum_from (xs : list Q) (a : Q) : fold_left Qplus xs a == a + Qsum xs.
Proof.
  revert a. induction xs as [ | x xs IH]; intros a; simpl.
  - lra.
  - rewrite IH. lra.
Qed.

Lemma py_sum_Qsum (xs : list Q) : py_sum xs == Qsum xs.
Proof. unfold py_sum. rewrite py_sum_from. lra. Qed.

Lemma Qsum_app (xs ys : list Q) : Qsum (xs ++ ys) == Qsum xs + Qsum ys.
Proof.
  induction xs as [ | x xs IH]; simpl; [lra | rewrite IH; lra].
Qed.

Lemma Qsum_perm (xs ys : list Q) : Permutation xs ys -> Qsum xs == Qsum ys.
Proof.
  induction 1; simpl; lra.
Qed.

(** ** The stable sort *)

Section OrderByFacts.
Context {R : Type}.
Variable leb : R -> R -> bool.
Hypothesis leb_total : forall a b, leb a b = true \/ leb b a = true.
Hypothesis leb_trans : forall a b c, leb a b = true -> leb b c = true -> leb a c = true.

Lemma insert_row_perm (x : R) (l : list R) :
  Permutation (insert_row leb x l) (x :: l).
Proof.
  induction l as [ | y l IH]; simpl.
  - apply Permutation_refl.
  - destruct (leb x y).
    + apply Permutation_refl.
    + apply perm_trans with (y :: x :: l).
      * apply perm_skip, IH.
      * apply perm_swap.
Qed.

Lemma orderBy_perm (l : list R) : Permutation (orderBy leb l) l.
Proof.
  induction l as [ | x l IH]; simpl.
  - apply perm_nil.
  - eapply perm_trans; [apply insert_row_perm | apply perm_skip, IH].
Qed.

Lemma insert_row_sorted (x : R) (l : list R) :
  StronglySorted (fun a b => leb a b = true) l ->
  StronglySorted (fun a b => leb a b = true) (insert_row leb x l).
Proof.
  induction 1 as [ | y l Hs IH Hy]; simpl.
  - constructor; constructor.
  - destruct (leb x y) eqn:E.
    + constructor.
      * constructor; assumption.
      * constructor; [exact E | ].
        eapply Forall_impl; [ | exact Hy].
        intros z Hz. eapply leb_trans; eassumption.
    + constructor; [exact IH | ].
      eapply Permutation_Forall.
      * apply Permutation_sym, insert_row_perm.
      * constructor; [ | exact Hy].
        destruct (leb_total x y) as [H | H]; congruence.
Qed.

Lemma orderBy_sorted (l : list R) :
  StronglySorted (fun a b => leb a b = true) (orderBy leb l).
Proof.
  induction l as [ | x l IH]; simpl.
  - constructor.
  - apply insert_row_sorted, IH.
Qed.

Lemma orderBy_length (l : list R) : List.length (orderBy leb l) = List.length l.
Proof. apply Permutation_length, orderBy_perm. Qed.

End OrderByFacts.

Lemma start_leb_total (a b : interval) :
  start_leb a b = true \/ start_leb b a = true.
Proof.
  unfold start_leb. rewrite !Qle_bool_iff.
  destruct (Qlt_le_dec (fst b) (fst a)); [right | left]; lra.
Qed.

Lemma start_leb_trans (a b c : interval) :
  start_leb a b = true -> start_leb b c = true -> start_leb a c = true.
Proof.
  unfold start_leb. rewrite !Qle_bool_iff. lra.
Qed.

Lemma orderBy_start_sorted (l : list interval) :
  StronglySorted start_le (orderBy start_leb l).
Proof.
  pose proof (orderBy_sorted start_leb start_leb_total start_leb_trans l) as H.
  induction H as [ | x r Hs IH Hx]; constructor; [exact IH | ].
  eapply Forall_impl; [ | exact Hx].
  intros y Hy. apply Qle_bool_iff in Hy. exact Hy.
Qed.

(** ** The merge loop refines the Interval Merger of the specification *)

Lemma merge_step_last (acc : list interval) (ls le s e : Q) :
  merge_step (acc ++ [(ls, le)]) (s, e)
  = if Qltb le s then (acc ++ [(ls, le)]) ++ [(s, e)]
    else acc ++ [(ls, py_max le e)].
Proof.
  unfold merge_step. rewrite rev_unit.
  destruct (Qltb le s); [reflexivity | ].
  rewrite removelast_last. reflexivity.
Qed.

Lemma fold_merge_step (rows acc : list interval) (cur : interval) :
  fold_left merge_step rows (acc ++ [cur]) = acc ++ merged_from cur rows.
Proof.
  revert acc cur. induction rows as [ | [s e] rows IH]; intros acc [ls le].
  - reflexivity.
  - cbn [fold_left merged_from fst snd]. rewrite merge_step_last.
    destruct (Qltb le s).
    + rewrite IH, <- app_assoc. reflexivity.
    + apply IH.
Qed.

Lemma merge_intervals_cons (row : interval) (rows : list interval) :
  merge_intervals (row :: rows) = merged_from row rows.
Proof.
  unfold merge_intervals. destruct row as [s e]. simpl fold_left.
  change (merge_step [] (s, e)) with ([] ++ [(s, e)]).
  apply (fold_merge_step rows [] (s, e)).
Qed.

Lemma merged_from_total (cur : interval) (rows : list interval) :
  Qsum (map interval_length (merged_from cur rows))
  == IntervalMergerSpec.merge_from cur rows.
Proof.
  revert cur. induction rows as [ | [s e] rows IH]; intros cur; simpl.
  - unfold interval_length. lra.
  - unfold Qltb. destruct (Qle_bool s (snd cur)); simpl.
    + rewrite IH, py_max_Qmax. reflexivity.
    + rewrite IH. unfold interval_length. lra.
Qed.

Lemma interval_merger_refines (intervals : list interval) :
  interval_merger intervals == IntervalMergerSpec.coverage intervals.
Proof.
  unfold interval_merger, IntervalMergerSpec.coverage.
  rewrite py_sum_Qsum.
  destruct (orderBy start_leb intervals) as [ | row rows].
  - reflexivity.
  - rewrite merge_intervals_cons. apply merged_from_total.
Qed.

(** ** Coverage against the sum of the raw lengths *)

Lemma share_segment_iff (a b : interval) :
  share_segment a b <->
  (fst a < snd a /\ fst a < snd b) /\ (fst b < snd a /\ fst b < snd b).
Proof.
  unfold share_segment. rewrite Q.max_lub_lt_iff, !Q.min_glb_lt_iff. tauto.
Qed.

Lemma overlap_or_touch_iff (a b : interval) :
  overlap_or_touch a b <->
  (fst a <= snd a /\ fst a <= snd b) /\ (fst b <= snd a /\ fst b <= snd b).
Proof.
  unfold overlap_or_touch. rewrite Q.max_lub_iff, !Q.min_glb_iff. tauto.
Qed.

Lemma share_segment_touch (a b : interval) :
  share_segment a b -> overlap_or_touch a b.
Proof.
  rewrite share_segment_iff, overlap_or_touch_iff. lra.
Qed.

Lemma merge_from_le (cur : interval) (rest : list interval) :
  valid_interval cur -> Forall valid_interval rest ->
  IntervalMergerSpec.merge_from cur rest <= interval_length cur + raw_total rest.
Proof.
  unfold raw_total.
  revert cur. induction rest as [ | [s e] rest IH]; intros [cs ce] Hc Hr; simpl.
  - unfold interval_length; simpl. lra.
  - inversion Hr as [ | x r Hx Hr']; subst.
    unfold valid_interval, interval_length in *; simpl in *.
    destruct (Qle_bool s ce) eqn:E.
    + apply Qle_bool_iff in E.
      assert (Hc' : valid_interval (cs, Qmax ce e)).
      { unfold valid_interval; simpl. pose proof (Q.le_max_l ce e). lra. }
      specialize (IH _ Hc' Hr'). unfold interval_length in IH; simpl in IH.
      destruct (Q.max_spec ce e) as [[_ Hm] | [_ Hm]]; lra.
    + specialize (IH (s, e) Hx Hr'). unfold interval_length in IH; simpl in IH.
      lra.
Qed.

Lemma merge_from_eq_iff (cur : interval) (rest : list interval) :
  valid_interval cur -> Forall valid_interval rest ->
  StronglySorted start_le (cur :: rest) ->
  (IntervalMergerSpec.merge_from cur rest == interval_length cur + raw_total rest
   <-> no_two share_segment (cur :: rest)).
Proof.
  unfold no_two.
  revert cur. induction rest as [ | [s e] rest IH]; intros [cs ce] Hc Hr Hs.
  - simpl. unfold raw_total, interval_length; simpl. split.
    + intros _. constructor; constructor.
    + intros _. lra.
  - inversion Hr as [ | x r Hx Hr']; subst.
    inversion Hs as [ | x r Hs1 Hf1]; subst.
    inversion Hs1 as [ | x r Hs2 Hf2]; subst.
    inversion Hf1 as [ | x r Hcs Hf1']; subst.
    unfold start_le in Hcs; simpl in Hcs.
    unfold valid_interval in Hc, Hx; simpl in Hc, Hx.
    simpl IntervalMergerSpec.merge_from.
    change (raw_total ((s, e) :: rest))
      with (interval_length (s, e) + raw_total rest).
    destruct (Qle_bool s ce) eqn:E.
    + (* the next interval extends the running one *)
      apply Qle_bool_iff in E.
      set (cur' := (cs, Qmax ce e)).
      assert (Hc' : valid_interval cur').
      { unfold valid_interval; simpl. pose proof (Q.le_max_l ce e). lra. }
      assert (Hs' : StronglySorted start_le (cur' :: rest)).
      { constructor; [exact Hs2 | exact Hf1']. }
      pose proof (merge_from_le cur' rest Hc' Hr') as Hle.
      specialize (IH cur' Hc' Hr' Hs').
      assert (Hmix : forall y, start_le (s, e) y ->
                (share_segment cur' y <->
                 share_segment (cs, ce) y \/ share_segment (s, e) y)).
      { intros [ys ye]. unfold start_le; simpl. intros Hy.
        rewrite !share_segment_iff; simpl.
        destruct (Q.max_spec ce e) as [[Hlt Hm] | [Hlt Hm]]; lra. }
      unfold interval_length in *; simpl in *.
      split.
      * intros Heq.
        assert (Hlen : Qmax ce e - cs == ce - cs + (e - s))
          by (destruct (Q.max_spec ce e) as [[Hlt Hm] | [Hlt Hm]]; lra).
        assert (Heq' : IntervalMergerSpec.merge_from cur' rest
                       == Qmax ce e - cs + raw_total rest) by lra.
        apply IH in Heq'. inversion Heq' as [ | x r Hn Hrest]; subst.
        constructor; [constructor | constructor; [ | exact Hrest]].
        -- rewrite share_segment_iff; simpl.
           destruct (Q.max_spec ce e) as [[Hlt Hm] | [Hlt Hm]]; lra.
        -- rewrite Forall_forall in *. intros y Hy Hsh.
           apply (Hn y Hy). apply Hmix; [apply Hf2, Hy | left; exact Hsh].
        -- rewrite Forall_forall in *. intros y Hy Hsh.
           apply (Hn y Hy). apply Hmix; [apply Hf2, Hy | right; exact Hsh].
      * intros Hfop.
        inversion Hfop as [ | x r Hn1 Hfop1]; subst.
        inversion Hfop1 as [ | x r Hn2 Hfop2]; subst.
        inversion Hn1 as [ | x r Hcx Hn1']; subst.
        rewrite share_segment_iff in Hcx; simpl in Hcx.
        assert (Heq' : IntervalMergerSpec.merge_from cur' rest
                       == Qmax ce e - cs + raw_total rest).
        { apply IH. constructor; [ | exact Hfop2].
          rewrite Forall_forall in *. intros y Hy Hsh.
          apply Hmix in Hsh; [ | apply Hf2, Hy].
          destruct Hsh as [Hsh | Hsh]; [apply (Hn1' y Hy Hsh) | apply (Hn2 y Hy Hsh)]. }
        destruct (Q.max_spec ce e) as [[Hlt Hm] | [Hlt Hm]]; lra.
    + (* the running interval is closed *)
      assert (E' : ce < s).
      { apply Qltb_lt. unfold Qltb. rewrite E. reflexivity. }
      assert (Hs' : StronglySorted start_le ((s, e) :: rest)) by exact Hs1.
      specialize (IH (s, e) Hx Hr' Hs').
      unfold interval_length in *; simpl in *.
      split.
      * intros Heq.
        assert (Heq' : IntervalMergerSpec.merge_from (s, e) rest
                       == e - s + raw_total rest) by lra.
        apply IH in Heq'.
        constructor; [ | exact Heq'].
        rewrite Forall_forall. intros [ys ye] Hy.
        rewrite share_segment_iff; simpl.
        assert (Hsy : start_le (s, e) (ys, ye)).
        { destruct Hy as [Hy | Hy]; [inversion Hy; subst; unfold start_le; simpl; lra | ].
          rewrite Forall_forall in Hf2. apply Hf2, Hy. }
        unfold start_le in Hsy; simpl in Hsy. lra.
      * intros Hfop. inversion Hfop as [ | x r Hn1 Hfop1]; subst.
        apply IH in Hfop1. lra.
Qed.

Lemma raw_total_perm (l l' : list interval) :
  Permutation l l' -> raw_total l == raw_total l'.
Proof.
  intros H. apply Qsum_perm, Permutation_map, H.
Qed.

Lemma no_two_perm {A : Type} (P : A -> A -> Prop) (l l' : list A) :
  (forall a b, P a b -> P b a) ->
  Permutation l l' -> no_two P l -> no_two P l'.
Proof.
  intros Hsym Hp. unfold no_two.
  induction Hp as [ | x l l' Hp IH | x y l | l l' l'' Hp1 IH1 Hp2 IH2]; intros H.
  - constructor.
  - inversion H as [ | a r Hx Hl]; subst.
    constructor; [eapply Permutation_Forall; eassumption | apply IH, Hl].
  - inversion H as [ | a r Hy Hl]; subst.
    inversion Hl as [ | a r Hx Hl']; subst.
    inversion Hy as [ | a r Hyx Hy']; subst.
    constructor; [constructor | constructor]; try assumption.
    intros Hxy. apply Hyx, Hsym, Hxy.
  - apply IH2, IH1, H.
Qed.

Lemma no_two_weaken {A : Type} (P P' : A -> A -> Prop) (l : list A) :
  (forall a b, P' a b -> P a b) -> no_two P l -> no_two P' l.
Proof.
  intros Himp. unfold no_two. induction 1 as [ | a l Ha Hl IH]; constructor.
  - eapply Forall_impl; [ | exact Ha]. intros b Hb Hp. apply Hb, Himp, Hp.
  - exact IH.
Qed.

Lemma share_segment_sym (a b : interval) : share_segment a b -> share_segment b a.
Proof. rewrite !share_segment_iff. tauto. Qed.

(** The bound and the case of equality, for the merge loop of the notebook. *)
Lemma interval_merger_bound (intervals : list interval) :
  Forall valid_interval intervals ->
  interval_merger intervals <= raw_total intervals
  /\ (interval_merger intervals == raw_total intervals
      <-> no_two share_segment intervals).
Proof.
  intros Hv. rewrite interval_merger_refines.
  unfold IntervalMergerSpec.coverage.
  pose proof (orderBy_perm start_leb intervals) as Hp.
  pose proof (orderBy_start_sorted intervals) as Hs.
  rewrite <- (raw_total_perm _ _ Hp).
  assert (Hv' : Forall valid_interval (orderBy start_leb intervals)).
  { eapply Permutation_Forall; [apply Permutation_sym, Hp | exact Hv]. }
  assert (Hn : no_two share_segment (orderBy start_leb intervals)
               <-> no_two share_segment intervals).
  { split; apply no_two_perm; auto using share_segment_sym, Permutation_sym. }
  rewrite <- Hn. clear Hn Hp Hv.
  destruct (orderBy start_leb intervals) as [ | cur rest].
  - split; [unfold raw_total; simpl; lra | ].
    split; [intros _; constructor | intros _; reflexivity].
  - inversion Hv' as [ | x r Hc Hr]; subst.
    change (raw_total (cur :: rest)) with (interval_length cur + raw_total rest).
    split; [apply merge_from_le; assumption | ].
    apply merge_from_eq_iff; assumption.
Qed.

(** ** C4 *)

(** C4, as stated, fails: the intervals (0,5) and (5,10) touch, yet the
    merged coverage, 10, equals the sum of the two lengths. *)
Lemma interval_merger_touching_counterexample :
  let touching := [(0, 5); (5, 10)] in
  Forall valid_interval touching
  /\ ~ (interval_merger touching <= raw_total touching
        /\ (interval_merger touching == raw_total touching
            <-> no_two overlap_or_touch touching)).
Proof.
  split.
  - repeat constructor; unfold valid_interval; simpl; lra.
  - intros [_ [H _]].
    assert (E : interval_merger [(0, 5); (5, 10)] == raw_total [(0, 5); (5, 10)])
      by (vm_compute; reflexivity).
    apply H in E. inversion E as [ | a r Ha _]; subst.
    inversion Ha as [ | b r' Hb _]; subst.
    apply Hb. apply overlap_or_touch_iff. simpl. lra.
Qed.

(** C4 (amended): for intervals with start <= end, the merged coverage of
    the Interval Merger is at most the sum of the raw interval lengths; it
    equals that sum whenever no two intervals overlap or touch, and it
    equals that sum if and only if no two intervals share a segment of
    positive length. *)
Theorem interval_merger_coverage (intervals : list interval) :
  Forall valid_interval intervals ->
  interval_merger intervals <= raw_total intervals
  /\ (no_two overlap_or_touch intervals ->
      interval_merger intervals == raw_total intervals)
  /\ (interval_merger intervals == raw_total intervals
      <-> no_two share_segment intervals).
Proof.
  intros Hv. destruct (interval_merger_bound intervals Hv) as [Hle Heq].
  split; [exact Hle | split; [ | exact Heq]].
  intros Hn. apply Heq.
  eapply no_two_weaken; [ | exact Hn]. apply share_segment_touch.
Qed.

Lemma interval_merger_coverage_witness :
  let intervals := [(0, 10); (5, 15); (20, 25)] in
  Forall valid_interval intervals
  /\ interval_merger intervals <= raw_total intervals
  /\ (no_two overlap_or_touch intervals ->
      interval_merger intervals == raw_total intervals)
  /\ (interval_merger intervals == raw_total intervals
      <-> no_two share_segment intervals).
Proof.
  assert (Hv : Forall valid_interval [(0, 10); (5, 15); (20, 25)]).
  { repeat constructor; unfold valid_interval; simpl; lra. }
  split; [exact Hv | ].
  exact (interval_merger_coverage [(0, 10); (5, 15); (20, 25)] Hv).
Defined.

(** The scenario of the specification: (0,10), (5,15), (20,25) are covered
    by 15 + 5 = 20 s, not by 10 + 10 + 5 = 25 s. *)
Example interval_merger_scenario :
  merge_intervals (orderBy start_leb [(20, 25); (0, 10); (5, 15)])
  = [(0, 15); (20, 25)]
  /\ interval_merger [(20, 25); (0, 10); (5, 15)] == 20.
Proof. split; vm_compute; reflexivity. Qed.

(** ** C1 *)

Lemma all_task_intervals_mark_failed (b : bool) (event_log_df : event_log) :
  all_task_intervals (map (mark_failed b) event_log_df)
  = all_task_intervals event_log_df.
Proof.
  unfold all_task_intervals, task_end_rows.
  induction event_log_df as [ | e rest IH]; [reflexivity | ].
  cbn [map flat_map]. rewrite !flat_map_app, IH.
  destruct e; reflexivity.
Qed.

(** C1, as stated, fails: a log whose only task failed after running from
    0 ms to 10000 ms has 10 s of executor wall-clock time, whereas the
    Interval Merger over the non-failed tasks gives 0. *)
Lemma failed_task_counts_counterexample :
  let event_log_df :=
    [SparkListenerTaskEnd (mkTask 0 0 1 "1" (Some 0%Z) (Some 10000%Z) true 10000)] in
  ~ compute_executor_wall_clock_time event_log_df
    == IntervalMergerSpec.coverage (non_failed_task_intervals event_log_df).
Proof.
  intros event_log_df H. vm_compute in H. discriminate H.
Qed.

(** C1 (amended): for every event log, executorWallClock equals the
    Interval Merger total applied to the (launchTimeMs/1000,
    finishTimeMs/1000) pairs of all task-end records that have both times,
    failed or not: the failure flag of a task has no influence on the
    executor wall-clock time. *)
Theorem executor_wall_clock_all_tasks (event_log_df : event_log) :
  compute_executor_wall_clock_time event_log_df
  == IntervalMergerSpec.coverage (all_task_intervals event_log_df)
  /\ forall b,
       compute_executor_wall_clock_time (map (mark_failed b) event_log_df)
       = compute_executor_wall_clock_time event_log_df.
Proof.
  split.
  - apply interval_merger_refines.
  - intros b. unfold compute_executor_wall_clock_time.
    change (flat_map task_interval (task_end_rows (map (mark_failed b) event_log_df)))
      with (all_task_intervals (map (mark_failed b) event_log_df)).
    rewrite all_task_intervals_mark_failed. reflexivity.
Qed.

(** ** Spark aggregates *)

Lemma spark_sum_or_zero (col : list (option Q)) :
  or_zero (spark_sum col) == Qsum (map or_zero col).
Proof.
  induction col as [ | [x | ] col IH]; simpl.
  - reflexivity.
  - destruct (spark_sum col); simpl in *; lra.
  - rewrite IH. lra.
Qed.

Lemma spark_sum_some (col : list (option Q)) (x : Q) :
  In (Some x) col -> exists s, spark_sum col = Some s.
Proof.
  induction col as [ | [y | ] col IH]; simpl; intros H.
  - contradiction.
  - destruct (spark_sum col); eauto.
  - destruct H as [H | H]; [discriminate | auto].
Qed.

Lemma spark_sum_none (col : list (option Q)) :
  Forall (fun c => c = None) col -> spark_sum col = None.
Proof.
  induction 1 as [ | c col Hc _ IH]; simpl; [reflexivity | ].
  subst c. exact IH.
Qed.

Lemma spark_max_some (col : list Q) :
  col <> [] -> exists m, spark_max col = Some m.
Proof.
  destruct col as [ | x col]; [congruence | intros _; simpl].
  destruct (spark_max col); eauto.
Qed.

Lemma spark_max_le_sum (col : list Q) :
  Forall (fun x => 0 <= x) col -> or_zero (spark_max col) <= Qsum col.
Proof.
  induction 1 as [ | x col Hx Hc IH]; simpl; [lra | ].
  destruct (spark_max col) as [m | ]; simpl in *.
  - destruct (Q.max_spec x m) as [[_ E] | [_ E]]; rewrite E.
    + assert (0 <= x) by exact Hx. lra.
    + assert (0 <= Qsum col).
      { clear IH. induction Hc; simpl; lra. }
      lra.
  - assert (0 <= Qsum col).
    { clear IH. induction Hc; simpl; lra. }
    lra.
Qed.

Lemma Qsum_map_le {A : Type} (f g : A -> Q) (l : list A) :
  (forall a, In a l -> f a <= g a) -> Qsum (map f l) <= Qsum (map g l).
Proof.
  induction l as [ | a l IH]; simpl; intros H; [lra | ].
  assert (f a <= g a) by (apply H; left; reflexivity).
  assert (Qsum (map f l) <= Qsum (map g l)) by (apply IH; intros; apply H; right; assumption).
  lra.
Qed.

Lemma Qsum_map_eq {A : Type} (f g : A -> Q) (l : list A) :
  (forall a, In a l -> f a == g a) -> Qsum (map f l) == Qsum (map g l).
Proof.
  induction l as [ | a l IH]; simpl; intros H; [lra | ].
  assert (f a == g a) by (apply H; left; reflexivity).
  assert (Qsum (map f l) == Qsum (map g l)) by (apply IH; intros; apply H; right; assumption).
  lra.
Qed.

(** ** Grouping *)

Section GroupByFacts.
Context {R K : Type}.
Variable K_eq_dec : forall a b : K, {a = b} + {a <> b}.
Variable key : R -> K.

Lemma group_keys_NoDup (rows : list R) : NoDup (group_keys K_eq_dec key rows).
Proof. apply NoDup_nodup. Qed.

Lemma group_keys_In (rows : list R) (k : K) :
  In k (group_keys K_eq_dec key rows) <-> exists r, In r rows /\ key r = k.
Proof.
  unfold group_keys. rewrite nodup_In, in_map_iff.
  split; intros [r [H1 H2]]; exists r; auto.
Qed.

Lemma group_rows_In (rows : list R) (k : K) (r : R) :
  In r (group_rows K_eq_dec key k rows) <-> In r rows /\ key r = k.
Proof.
  unfold group_rows. rewrite filter_In.
  destruct (K_eq_dec (key r) k); intuition congruence.
Qed.

Lemma group_rows_nonempty (rows : list R) (k : K) :
  In k (group_keys K_eq_dec key rows) -> group_rows K_eq_dec key k rows <> [].
Proof.
  intros H E. apply group_keys_In in H. destruct H as [r [Hr Hk]].
  assert (Hin : In r (group_rows K_eq_dec key k rows))
    by (apply group_rows_In; auto).
  rewrite E in Hin. contradiction.
Qed.

Lemma groupBy_length (rows : list R) :
  List.length (groupBy K_eq_dec key rows)
  = List.length (group_keys K_eq_dec key rows).
Proof. unfold groupBy. apply length_map. Qed.

(** Each row lies in the group of exactly one key: sums over the groups add
    up to the sum over the rows. *)
Lemma Qsum_groups_step (f : R -> Q) (r : R) (rows : list R) (keys : list K) :
  NoDup keys ->
  Qsum (map (fun k => Qsum (map f (group_rows K_eq_dec key k (r :: rows)))) keys)
  == (if in_dec K_eq_dec (key r) keys then f r else 0)
     + Qsum (map (fun k => Qsum (map f (group_rows K_eq_dec key k rows))) keys).
Proof.
  induction 1 as [ | k keys Hk Hnd IH]; cbn [map Qsum fold_right].
  - destruct (in_dec K_eq_dec (key r) []); [contradiction | lra].
  - fold (Qsum (map (fun k0 => Qsum (map f (group_rows K_eq_dec key k0 (r :: rows)))) keys)).
    fold (Qsum (map (fun k0 => Qsum (map f (group_rows K_eq_dec key k0 rows))) keys)).
    rewrite IH. clear IH.
    unfold group_rows at 1. cbn [filter].
    fold (group_rows K_eq_dec key k rows).
    destruct (in_dec K_eq_dec (key r) (k :: keys)) as [Hin | Hout];
      destruct (in_dec K_eq_dec (key r) keys) as [Hin' | Hout'];
      destruct (K_eq_dec (key r) k) as [E | E]; cbn [map Qsum fold_right];
      fold (Qsum (map f (group_rows K_eq_dec key k rows))); try lra.
    + subst k. contradiction.
    + destruct Hin as [Hin | Hin]; [congruence | contradiction].
    + exfalso. apply Hout. left. congruence.
    + exfalso. apply Hout. right. assumption.
    + exfalso. apply Hout. left. congruence.
Qed.

Lemma Qsum_groups (f : R -> Q) (rows : list R) (keys : list K) :
  NoDup keys -> (forall r, In r rows -> In (key r) keys) ->
  Qsum (map (fun k => Qsum (map f (group_rows K_eq_dec key k rows))) keys)
  == Qsum (map f rows).
Proof.
  intros Hnd. induction rows as [ | r rows IH]; intros Hcov.
  - cbn [group_rows filter map]. clear Hcov Hnd.
    induction keys as [ | k keys IHk]; simpl in *; [reflexivity | lra].
  - rewrite Qsum_groups_step by exact Hnd.
    destruct (in_dec K_eq_dec (key r) keys) as [_ | Hout].
    + rewrite IH by (intros; apply Hcov; right; assumption).
      simpl. lra.
    + exfalso. apply Hout, Hcov. left. reflexivity.
Qed.

End GroupByFacts.

(** ** C8 *)

Lemma per_stage_max_column (tasks_df : list task_row) :
  map snd (per_stage_max_df_of tasks_df)
  = map (fun k => spark_max (map duration_sec (group_rows Z.eq_dec stage_id k tasks_df)))
        (group_keys Z.eq_dec stage_id tasks_df).
Proof.
  unfold per_stage_max_df_of, groupBy. rewrite !map_map. reflexivity.
Qed.

Lemma critical_path_some (tasks_df : list task_row) :
  tasks_df <> [] -> exists c, critical_path_time_sec tasks_df = Some c.
Proof.
  intros Hne. unfold critical_path_time_sec. rewrite per_stage_max_column.
  destruct tasks_df as [ | r rest]; [congruence | ].
  assert (Hk : In (stage_id r) (group_keys Z.eq_dec stage_id (r :: rest))).
  { apply group_keys_In. exists r. split; [left | ]; reflexivity. }
  destruct (spark_max_some
              (map duration_sec (group_rows Z.eq_dec stage_id (stage_id r) (r :: rest))))
    as [m Hm].
  { intros E. apply map_eq_nil in E.
    apply (group_rows_nonempty Z.eq_dec stage_id (r :: rest) (stage_id r) Hk E). }
  apply (spark_sum_some _ m). apply in_map_iff.
  exists (stage_id r). split; [exact Hm | exact Hk].
Qed.

Lemma critical_path_bound (tasks_df : list task_row) :
  Forall (fun r => 0 <= duration_sec r) tasks_df ->
  or_zero (critical_path_time_sec tasks_df) <= Qsum (map duration_sec tasks_df).
Proof.
  intros Hpos. unfold critical_path_time_sec.
  rewrite per_stage_max_column, spark_sum_or_zero, map_map.
  rewrite <- (Qsum_groups Z.eq_dec stage_id duration_sec tasks_df
                (group_keys Z.eq_dec stage_id tasks_df)).
  - apply Qsum_map_le. intros k _. apply spark_max_le_sum.
    rewrite Forall_forall in *. intros x Hx.
    apply in_map_iff in Hx. destruct Hx as [r [Hr Hin]]. subst x.
    apply group_rows_In in Hin. apply Hpos, Hin.
  - apply group_keys_NoDup.
  - intros r Hr. apply group_keys_In. exists r. auto.
Qed.

Lemma total_task_time_ms_value (tasks_df : list task_row) :
  tasks_df <> [] ->
  exists total,
    spark_sum (map (fun r => Some (executor_run_time_ms r)) tasks_df) = Some total
    /\ total == Qsum (map duration_sec tasks_df) * 1000.
Proof.
  intros Hne.
  pose proof (spark_sum_or_zero (map (fun r => Some (executor_run_time_ms r)) tasks_df))
    as Hz.
  destruct tasks_df as [ | r rest]; [congruence | ].
  destruct (spark_sum_some
              (map (fun r => Some (executor_run_time_ms r)) (r :: rest))
              (executor_run_time_ms r)) as [total Ht].
  { left. reflexivity. }
  exists total. split; [exact Ht | ].
  rewrite Ht in Hz. simpl or_zero in Hz. rewrite Hz, map_map. clear.
  generalize (r :: rest). intros l.
  induction l as [ | x l IH]; simpl in *; [lra | ].
  unfold executor_run_time_ms at 1. lra.
Qed.


Lemma inject_Zsum (l : list Z) : inject_Z (Zsum l) == Qsum (map inject_Z l).
Proof.
  induction l as [ | x l IH]; cbn [map Zsum Qsum fold_right]; [reflexivity | ].
  fold (Zsum l). fold (Qsum (map inject_Z l)).
  rewrite inject_Z_plus, IH. reflexivity.
Qed.







(** The scenario of the specification: stage A with run times 10 s and 30 s,
    stage B with 20 s, critical path 30 + 20 = 50 s. *)
Example critical_path_scenario :
  critical_path_time_sec
    [ mkRow 0 0 1 "1" None None false 10;
      mkRow 0 0 2 "2" None None false 30;
      mkRow 1 0 3 "1" None None false 20 ] = Some (30 + 20).
Proof. reflexivity. Qed.

(** ** The stage summary *)







Lemma StronglySorted_impl {A : Type} (P P' : A -> A -> Prop) (l : list A) :
  (forall a b, P a b -> P' a b) -> StronglySorted P l -> StronglySorted P' l.
Proof.
  intros Himp. induction 1 as [ | x r Hr IH Hx]; constructor; [exact IH | ].
  eapply Forall_impl; [ | exact Hx]. intros y. apply Himp.
Qed.

Lemma filter_key_absent {A K : Type} (K_eq_dec : forall a b : K, {a = b} + {a <> b})
      (F : K -> A) (key : A -> K) (k : K) (keys : list K) :
  (forall k', key (F k') = k') -> ~ In k keys ->
  filter (fun d => if K_eq_dec (key d) k then true else false) (map F keys) = [].
Proof.
  intros HF. induction keys as [ | k' keys IH]; simpl; intros Hout; [reflexivity | ].
  rewrite HF. destruct (K_eq_dec k' k) as [E | E].
  - exfalso. apply Hout. left. exact E.
  - apply IH. intros Hin. apply Hout. right. exact Hin.
Qed.

Lemma filter_key_unique {A K : Type} (K_eq_dec : forall a b : K, {a = b} + {a <> b})
      (F : K -> A) (key : A -> K) (k : K) (keys : list K) :
  (forall k', key (F k') = k') -> NoDup keys -> In k keys ->
  filter (fun d => if K_eq_dec (key d) k then true else false) (map F keys) = [F k].
Proof.
  intros HF. induction 1 as [ | k' keys Hk Hnd IH]; simpl; intros Hin; [contradiction | ].
  rewrite HF. destruct (K_eq_dec k' k) as [E | E].
  - subst k'. f_equal. apply filter_key_absent; assumption.
  - destruct Hin as [Hin | Hin]; [congruence | apply IH, Hin].
Qed.

Lemma flat_map_singletons {A B : Type} (f : A -> list B) (g : A -> B) (l : list A) :
  (forall x, In x l -> f x = [g x]) -> flat_map f l = map g l.
Proof.
  induction l as [ | x l IH]; simpl; intros H; [reflexivity | ].
  rewrite (H x) by (left; reflexivity).
  rewrite IH by (intros; apply H; right; assumption). reflexivity.
Qed.

Lemma stage_duration_df_rows (tasks_df : list task_row) :
  stage_duration_df_of tasks_df
  = map (stage_duration_row tasks_df) (group_keys stage_key_eq_dec key_of tasks_df).
Proof.
  unfold stage_duration_df_of, groupBy. rewrite map_map. reflexivity.
Qed.

(** Every group finds exactly one partner in the join. *)
Lemma joined_summary_df_rows (tasks_df : list task_row) :
  joined_summary_df tasks_df
  = map (fun k => summary_row k (group_rows stage_key_eq_dec key_of k tasks_df)
                              (Some (stage_duration_row tasks_df k)))
        (group_keys stage_key_eq_dec key_of tasks_df).
Proof.
  unfold joined_summary_df, groupBy.
  rewrite flat_map_concat_map, map_map, <- flat_map_concat_map.
  apply flat_map_singletons. intros k Hk.
  rewrite stage_duration_df_rows.
  rewrite (filter_key_unique stage_key_eq_dec (stage_duration_row tasks_df) sd_key k).
  - reflexivity.
  - reflexivity.
  - apply group_keys_NoDup.
  - exact Hk.
Qed.

Lemma joined_summary_df_length (tasks_df : list task_row) :
  List.length (joined_summary_df tasks_df)
  = List.length (groupBy stage_key_eq_dec key_of tasks_df).
Proof.
  rewrite joined_summary_df_rows, groupBy_length. apply length_map.
Qed.

Lemma final_summary_incl (tasks_df : list task_row) (row : StageSummary) :
  In row (final_summary_df_of tasks_df) -> In row (joined_summary_df tasks_df).
Proof.
  unfold final_summary_df_of. intros H.
  eapply Permutation_in; [apply (orderBy_perm window_desc) | ].
  rewrite <- (firstn_skipn 5). apply in_or_app. left. exact H.
Qed.

(** ** C9 *)





(** Six stages with windows of 1 s to 6 s: the five longest are kept, the
    longest first. *)
Example final_summary_scenario :
  map (fun row => (fst (ss_key row), stage_execution_time_sec row))
      (final_summary_df_of
         (map (fun n => mkRow n 0 n "1" (Some 0%Z) (Some (1000 * n)%Z) false 1)
              [3; 1; 6; 2; 5; 4]%Z))
  = [ (6%Z, Some (inject_Z (6000 - 0) / 1000));
      (5%Z, Some (inject_Z (5000 - 0) / 1000));
      (4%Z, Some (inject_Z (4000 - 0) / 1000));
      (3%Z, Some (inject_Z (3000 - 0) / 1000));
      (2%Z, Some (inject_Z (2000 - 0) / 1000)) ].
Proof. vm_compute. reflexivity. Qed.

(** ** C10 *)

Lemma tasks_df_not_failed (event_log_df : event_log) (r : task_row) :
  In r (tasks_df_of event_log_df) -> failed r = false.
Proof.
  unfold tasks_df_of. rewrite filter_In. intros [_ H].
  apply negb_true_iff in H. exact H.
Qed.

Lemma summary_row_counts (k : stage_key) (g : list task_row) (d : option StageDuration) :
  Forall (fun r => failed r = false) g ->
  successful_tasks (summary_row k g d) = num_tasks (summary_row k g d)
  /\ failed_tasks (summary_row k g d) = 0%Z.
Proof.
  unfold summary_row, count_when; simpl. rewrite length_map.
  induction 1 as [ | r g Hr Hg [IH1 IH2]]; simpl; [split; reflexivity | ].
  rewrite Hr; simpl. split.
  - apply Nat2Z.inj in IH1. rewrite IH1. reflexivity.
  - exact IH2.
Qed.

(** C10: in every StageSummary row produced by the aggregator, before and
    after the selection of the top rows, successful_tasks equals num_tasks
    and failed_tasks is 0, because the tasks are filtered to failed == false
    before the aggregation per stage. *)
Theorem stage_summary_counts (event_log_df : event_log) :
  let counts_agree row :=
    successful_tasks row = num_tasks row /\ failed_tasks row = 0%Z in
  Forall counts_agree (joined_summary_df (tasks_df_of event_log_df))
  /\ Forall counts_agree (final_summary_df_of (tasks_df_of event_log_df)).
Proof.
  intros counts_agree.
  assert (H : Forall counts_agree (joined_summary_df (tasks_df_of event_log_df))).
  { rewrite joined_summary_df_rows, Forall_forall. intros row Hrow.
    apply in_map_iff in Hrow. destruct Hrow as [k [Hk _]]. subst row.
    apply summary_row_counts. rewrite Forall_forall. intros r Hr.
    apply group_rows_In in Hr. eapply tasks_df_not_failed, Hr. }
  split; [exact H | ].
  rewrite Forall_forall in *. intros row Hrow.
  apply H, final_summary_incl, Hrow.
Qed.

(** ** The scaling predictor *)

Lemma Qnum_nonneg (x : Q) : 0 <= x <-> (0 <= Qnum x)%Z.
Proof. unfold Qle; simpl. lia. Qed.

Lemma py_int_nonneg (x : Q) : 0 <= x -> py_int x = Qfloor x.
Proof.
  intros H. apply Qnum_nonneg in H. destruct x as [n d]; simpl in *.
  unfold py_int; simpl. apply Z.quot_div_nonneg; lia.
Qed.

Lemma py_int_neg (x : Q) : x < 0 -> (py_int x <= 0)%Z.
Proof.
  intros H. assert (Hn : (Qnum x < 0)%Z) by (unfold Qlt in H; simpl in H; lia).
  unfold py_int.
  rewrite <- (Z.opp_involutive (Qnum x)), Z.quot_opp_l by lia.
  assert (0 <= - Qnum x ÷ Z.pos (Qden x))%Z by (apply Z.quot_pos; lia).
  lia.
Qed.

Lemma Qfloor_neg (x : Q) : x < 0 -> (Qfloor x < 0)%Z.
Proof.
  intros H. pose proof (Qfloor_le x) as Hf.
  assert (Hlt : inject_Z (Qfloor x) < inject_Z 0).
  { change (inject_Z 0) with 0. lra. }
  rewrite <- Zlt_Qlt in Hlt. exact Hlt.
Qed.

Lemma new_executors_floor (current_executors : Z) (multiplier : Q) :
  new_executors_of current_executors multiplier
  = Z.max 1 (Qfloor (inject_Z current_executors * multiplier)).
Proof.
  unfold new_executors_of.
  destruct (Qlt_le_dec (inject_Z current_executors * multiplier) 0) as [H | H].
  - pose proof (py_int_neg _ H). pose proof (Qfloor_neg _ H). lia.
  - rewrite py_int_nonneg by exact H. reflexivity.
Qed.

Lemma new_executors_positive (current_executors : Z) (multiplier : Q) :
  (1 <= new_executors_of current_executors multiplier)%Z.
Proof. unfold new_executors_of. lia. Qed.

Lemma new_executors_mono (current_executors : Z) (m1 m2 : Q) :
  (0 <= current_executors)%Z -> m1 <= m2 ->
  (new_executors_of current_executors m1 <= new_executors_of current_executors m2)%Z.
Proof.
  intros Hc Hm. rewrite !new_executors_floor.
  apply Z.max_le_compat_l, Qfloor_resp_le.
  assert (0 <= inject_Z current_executors)
    by (rewrite <- (Zle_Qle 0); exact Hc).
  rewrite !(Qmult_comm (inject_Z current_executors)).
  apply Qmult_le_compat_r; assumption.
Qed.

Lemma Qdiv_le_denominator (p a b : Q) :
  0 <= p -> 0 < a -> a <= b -> p / b <= p / a.
Proof.
  intros Hp Ha Hab.
  apply Qle_shift_div_l; [exact Ha | ].
  assert (Hq : 0 <= p / b).
  { apply Qle_shift_div_l; [lra | lra]. }
  assert (Hb : p / b * b == p) by (field; lra).
  assert (p / b * a <= p / b * b).
  { rewrite !(Qmult_comm (p / b)). apply Qmult_le_compat_r; assumption. }
  lra.
Qed.

Lemma estimated_executor_sec_antitone (critical_path_ms parallelizable_ms : Q) (n1 n2 : Z) :
  0 <= parallelizable_ms -> (1 <= n1 <= n2)%Z ->
  estimated_executor_sec_of critical_path_ms parallelizable_ms n2
  <= estimated_executor_sec_of critical_path_ms parallelizable_ms n1.
Proof.
  intros Hp [H1 H2]. unfold estimated_executor_sec_of.
  assert (Ha : 0 < inject_Z n1).
  { assert (H : inject_Z 1 <= inject_Z n1) by (rewrite <- Zle_Qle; exact H1).
    change (inject_Z 1) with 1 in H. lra. }
  assert (Hab : inject_Z n1 <= inject_Z n2) by (rewrite <- Zle_Qle; exact H2).
  pose proof (Qdiv_le_denominator parallelizable_ms _ _ Hp Ha Hab) as Hd.
  apply Qle_shift_div_r; [lra | ].
  assert (E : (critical_path_ms + parallelizable_ms / inject_Z n1) / 1000 * 1000
              == critical_path_ms + parallelizable_ms / inject_Z n1) by (field; lra).
  rewrite E. lra.
Qed.

Lemma multipliers_positive (m : Q) : In m multipliers -> 1 <= m.
Proof.
  unfold multipliers. simpl.
  intros [H | [H | [H | [H | [H | []]]]]]; subst m; lra.
Qed.

(** ** C7 *)

(** C7: for an input arising from a task set, so that
    0 <= criticalPathMs <= totalTaskTimeMs and currentExecutors >= 1, the
    estimate (criticalPathMs + parallelizableMs / newExecutors) / 1000 does
    not increase when the multiplier increases through 1.0, ..., 5.0. *)
Theorem estimated_executor_sec_monotone
  (critical_path_ms total_task_time_ms : Q) (current_executors : Z) (m1 m2 : Q) :
  0 <= critical_path_ms -> critical_path_ms <= total_task_time_ms ->
  (1 <= current_executors)%Z ->
  In m1 multipliers -> In m2 multipliers -> m1 <= m2 ->
  let parallelizable_ms := total_task_time_ms - critical_path_ms in
  estimated_executor_sec_of critical_path_ms parallelizable_ms
                            (new_executors_of current_executors m2)
  <= estimated_executor_sec_of critical_path_ms parallelizable_ms
                               (new_executors_of current_executors m1).
Proof.
  intros H0 Hle Hc Hm1 Hm2 Hm parallelizable_ms.
  apply estimated_executor_sec_antitone.
  - unfold parallelizable_ms. lra.
  - split; [apply new_executors_positive | ].
    apply new_executors_mono; [lia | exact Hm].
Qed.

Lemma estimated_executor_sec_monotone_witness :
  0 <= 50000 /\ 50000 <= 60000 /\ (1 <= 2)%Z
  /\ In 2 multipliers /\ In 3 multipliers /\ 2 <= 3
  /\ estimated_executor_sec_of 50000 (60000 - 50000) (new_executors_of 2 3)
     <= estimated_executor_sec_of 50000 (60000 - 50000) (new_executors_of 2 2).
Proof.
  assert (H0 : 0 <= 50000) by lra.
  assert (Hle : 50000 <= 60000) by lra.
  assert (Hc : (1 <= 2)%Z) by lia.
  assert (Hm1 : In 2 multipliers) by (right; left; reflexivity).
  assert (Hm2 : In 3 multipliers) by (right; right; left; reflexivity).
  assert (Hm : 2 <= 3) by lra.
  repeat (split; [assumption | ]).
  exact (estimated_executor_sec_monotone 50000 60000 2 2 3 H0 Hle Hc Hm1 Hm2 Hm).
Defined.

(** ** C6 *)

Lemma py_div_ok (x y : Q) : ~ y == 0 -> py_div x y = Ok (x / y).
Proof.
  intros H. unfold py_div. rewrite (proj2 (Qis_zero_false y) H). reflexivity.
Qed.

Lemma py_div_zero (x y : Q) : y == 0 -> py_div x y = Raise ZeroDivisionError.
Proof.
  intros H. unfold py_div. rewrite (proj2 (Qis_zero_true y) H). reflexivity.
Qed.

Lemma py_div_cases (x y : Q) :
  (y == 0 /\ py_div x y = Raise ZeroDivisionError)
  \/ (~ y == 0 /\ py_div x y = Ok (x / y)).
Proof.
  destruct (Qeq_dec y 0) as [H | H]; [left | right]; split; trivial.
  - apply py_div_zero, H.
  - apply py_div_ok, H.
Qed.

Lemma prediction_row_cases
  (critical_path_ms parallelizable_ms driver_wall_clock_sec : Q)
  (current_executors : Z) (multiplier : Q) :
  let est := estimated_executor_sec_of critical_path_ms parallelizable_ms
               (new_executors_of current_executors multiplier) in
  (driver_wall_clock_sec + est == 0
   /\ prediction_row critical_path_ms parallelizable_ms driver_wall_clock_sec
                     current_executors multiplier = Raise ZeroDivisionError)
  \/ (~ driver_wall_clock_sec + est == 0
      /\ exists row,
           prediction_row critical_path_ms parallelizable_ms driver_wall_clock_sec
                          current_executors multiplier = Ok row
           /\ Executor_Count row = new_executors_of current_executors multiplier
           /\ Executor_Multiplier row
              = (str_of_Z (py_int (multiplier * 100)) ++ "%")%string).
Proof.
  intros est. unfold prediction_row. fold est.
  destruct (py_div_cases driver_wall_clock_sec (driver_wall_clock_sec + est))
    as [[Hz E] | [Hz E]]; rewrite E; simpl.
  - left. split; [exact Hz | reflexivity].
  - right. split; [exact Hz | ]. eexists. split; [reflexivity | split; reflexivity].
Qed.

Lemma for_each_ok {A B : Type} (f : A -> result B) (P : A -> B -> Prop) (xs : list A) :
  (forall x, In x xs -> exists y, f x = Ok y /\ P x y) ->
  exists ys, for_each f xs = Ok ys /\ Forall2 P xs ys.
Proof.
  induction xs as [ | x xs IH]; intros H; simpl.
  - exists []. split; [reflexivity | constructor].
  - destruct (H x) as [y [Hy Hp]]; [left; reflexivity | ].
    destruct IH as [ys [Hys Hf]]; [intros; apply H; right; assumption | ].
    exists (y :: ys). rewrite Hy, Hys. simpl. split; [reflexivity | ].
    constructor; assumption.
Qed.

Lemma for_each_raise {A B : Type} (f : A -> result B) (e : exn) (xs : list A) :
  (forall x, In x xs -> f x = Raise e \/ exists y, f x = Ok y) ->
  (exists x, In x xs /\ f x = Raise e) ->
  for_each f xs = Raise e.
Proof.
  induction xs as [ | x xs IH]; intros Hall [x0 [Hin Hx0]]; simpl.
  - contradiction.
  - destruct (Hall x) as [Hx | [y Hy]]; [left; reflexivity | | ].
    + rewrite Hx. reflexivity.
    + rewrite Hy. simpl. rewrite IH; [reflexivity | | ].
      * intros; apply Hall; right; assumption.
      * destruct Hin as [Hin | Hin]; [subst x0; congruence | eauto].
Qed.

(** The subtraction of line 121 precedes the test of line 123: on a frame
    without rows the sum is null and the subtraction raises. *)
Lemma estimate_runtime_scaling_absent_total
  (executor_wall_clock_sec driver_wall_clock_sec : Q)
  (current_executors : Z) (critical_path_sec : Q) :
  estimate_runtime_scaling [] executor_wall_clock_sec driver_wall_clock_sec
                           current_executors critical_path_sec
  = Raise TypeError.
Proof. reflexivity. Qed.

(** C6, as stated, fails: with one task of 10 s, an executor wall-clock
    time of 10 s and a driver wall-clock time of -10 s (the values of a run
    whose application-end event is missing), the total task time and the
    executor wall-clock time are present and not zero, yet the predictor
    raises a division by zero instead of returning 5 rows. *)
Lemma scaling_zero_runtime_counterexample :
  let task_df := [mkRow 0 0 1 "1" (Some 0%Z) (Some 10000%Z) false 10] in
  (exists total,
     spark_sum (map (fun r => Some (executor_run_time_ms r)) task_df) = Some total
     /\ ~ total == 0)
  /\ ~ 10 == 0
  /\ estimate_runtime_scaling task_df 10 (-10) 1 10 = Raise ZeroDivisionError
  /\ ~ exists rows,
         estimate_runtime_scaling task_df 10 (-10) 1 10 = Ok rows
         /\ List.length rows = 5%nat.
Proof.
  intros task_df. split; [ | split; [ | split]].
  - eexists. split; [reflexivity | ]. vm_compute. discriminate.
  - vm_compute. discriminate.
  - vm_compute. reflexivity.
  - intros [rows [H _]]. vm_compute in H. discriminate H.
Qed.

(** The three outcomes of the predictor on a frame with a total. *)
Lemma estimate_runtime_scaling_cases
  (task_df : list task_row) (executor_wall_clock_sec driver_wall_clock_sec : Q)
  (current_executors : Z) (critical_path_sec total_task_time_ms : Q) :
  spark_sum (map (fun r => Some (executor_run_time_ms r)) task_df)
  = Some total_task_time_ms ->
  let est m :=
    estimated_executor_sec_of (critical_path_sec * 1000)
      (total_task_time_ms - critical_path_sec * 1000)
      (new_executors_of current_executors m) in
  let zero_denominator :=
    executor_wall_clock_sec + driver_wall_clock_sec == 0
    \/ exists m, In m multipliers /\ driver_wall_clock_sec + est m == 0 in
  let predictions :=
    estimate_runtime_scaling task_df executor_wall_clock_sec driver_wall_clock_sec
                             current_executors critical_path_sec in
  (total_task_time_ms == 0 \/ executor_wall_clock_sec == 0 -> predictions = Ok [])
  /\ (~ total_task_time_ms == 0 -> ~ executor_wall_clock_sec == 0 ->
      zero_denominator -> predictions = Raise ZeroDivisionError)
  /\ (~ total_task_time_ms == 0 -> ~ executor_wall_clock_sec == 0 ->
      ~ zero_denominator ->
      exists rows,
        predictions = Ok rows
        /\ List.length rows = 5%nat
        /\ map Executor_Count rows
           = map (fun m => Z.max 1 (Qfloor (inject_Z current_executors * m)))
                 multipliers
        /\ map Executor_Multiplier rows
           = ["100%"; "200%"; "300%"; "400%"; "500%"]%string).
Proof.
  intros Htotal est zero_denominator predictions.
  unfold predictions, estimate_runtime_scaling. rewrite Htotal. cbn [bind].
  split; [ | split].
  - intros [H | H].
    + rewrite (proj2 (Qis_zero_true _) H). reflexivity.
    + rewrite (proj2 (Qis_zero_true _) H), orb_true_r. reflexivity.
  - intros Ht He Hz.
    rewrite (proj2 (Qis_zero_false _) Ht), (proj2 (Qis_zero_false _) He).
    cbn [orb].
    destruct (py_div_cases driver_wall_clock_sec
                (executor_wall_clock_sec + driver_wall_clock_sec))
      as [[Hd E] | [Hd E]]; rewrite E; cbn [bind]; [reflexivity | ].
    destruct Hz as [Hz | [m [Hm Hz]]]; [contradiction | ].
    apply for_each_raise.
    + intros x _.
      destruct (prediction_row_cases (critical_path_sec * 1000)
                  (total_task_time_ms - critical_path_sec * 1000)
                  driver_wall_clock_sec current_executors x)
        as [[_ Hr] | [_ [row [Hr _]]]]; eauto.
    + exists m. split; [exact Hm | ].
      destruct (prediction_row_cases (critical_path_sec * 1000)
                  (total_task_time_ms - critical_path_sec * 1000)
                  driver_wall_clock_sec current_executors m)
        as [[_ Hr] | [Hnz _]]; [exact Hr | ].
      exfalso. apply Hnz, Hz.
  - intros Ht He Hz.
    rewrite (proj2 (Qis_zero_false _) Ht), (proj2 (Qis_zero_false _) He).
    cbn [orb].
    rewrite py_div_ok by (intros H; apply Hz; left; exact H). cbn [bind].
    destruct (for_each_ok
                (prediction_row (critical_path_sec * 1000)
                   (total_task_time_ms - critical_path_sec * 1000)
                   driver_wall_clock_sec current_executors)
                (fun m row =>
                   Executor_Count row = new_executors_of current_executors m
                   /\ Executor_Multiplier row
                      = (str_of_Z (py_int (m * 100)) ++ "%")%string)
                multipliers) as [rows [Hrows Hf]].
    { intros m Hm.
      destruct (prediction_row_cases (critical_path_sec * 1000)
                  (total_task_time_ms - critical_path_sec * 1000)
                  driver_wall_clock_sec current_executors m)
        as [[Hd _] | [_ [row Hrow]]]; [ | eauto].
      exfalso. apply Hz. right. exists m. split; assumption. }
    exists rows. split; [exact Hrows | ].
    unfold multipliers in *.
    repeat match goal with
           | H : Forall2 _ _ _ |- _ => inversion H; subst; clear H
           end.
    repeat match goal with
           | H : _ /\ _ |- _ => destruct H
           end.
    cbn [List.length map].
    rewrite <- !new_executors_floor.
    split; [reflexivity | split].
    + congruence.
    + repeat match goal with
             | H : Executor_Multiplier _ = _ |- _ => rewrite H; clear H
             end.
      reflexivity.
Qed.

(** C6 (amended): when the total task time is present, the scaling
    predictor returns an empty result set if the total task time or the
    executor wall-clock time is zero; otherwise it raises a division by
    zero if executor + driver wall-clock time is zero or driver time +
    estimated executor time is zero for some multiplier, and in every other
    case it returns exactly 5 rows, one per multiplier in
    {1.0, 2.0, 3.0, 4.0, 5.0}, each with
    newExecutors = max(1, floor(currentExecutors * m)). *)
Theorem estimate_runtime_scaling_rows
  (task_df : list task_row) (executor_wall_clock_sec driver_wall_clock_sec : Q)
  (current_executors : Z) (critical_path_sec total_task_time_ms : Q) :
  spark_sum (map (fun r => Some (executor_run_time_ms r)) task_df)
  = Some total_task_time_ms ->
  let est m :=
    estimated_executor_sec_of (critical_path_sec * 1000)
      (total_task_time_ms - critical_path_sec * 1000)
      (new_executors_of current_executors m) in
  let zero_denominator :=
    executor_wall_clock_sec + driver_wall_clock_sec == 0
    \/ exists m, In m multipliers /\ driver_wall_clock_sec + est m == 0 in
  let predictions :=
    estimate_runtime_scaling task_df executor_wall_clock_sec driver_wall_clock_sec
                             current_executors critical_path_sec in
  (total_task_time_ms == 0 \/ executor_wall_clock_sec == 0 -> predictions = Ok [])
  /\ (~ total_task_time_ms == 0 -> ~ executor_wall_clock_sec == 0 ->
      zero_denominator -> predictions = Raise ZeroDivisionError)
  /\ (~ total_task_time_ms == 0 -> ~ executor_wall_clock_sec == 0 ->
      ~ zero_denominator ->
      exists rows,
        predictions = Ok rows
        /\ List.length rows = 5%nat
        /\ map Executor_Count rows
           = map (fun m => Z.max 1 (Qfloor (inject_Z current_executors * m)))
                 multipliers
        /\ map Executor_Multiplier rows
           = ["100%"; "200%"; "300%"; "400%"; "500%"]%string).
Proof.
  intros Htotal. apply estimate_runtime_scaling_cases. exact Htotal.
Qed.

Lemma estimate_runtime_scaling_rows_witness :
  let task_df := [mkRow 0 0 1 "1" (Some 0%Z) (Some 10000%Z) false 10] in
  spark_sum (map (fun r => Some (executor_run_time_ms r)) task_df)
  = Some (10 * 1000)
  /\ exists rows,
       estimate_runtime_scaling task_df 10 90 2 10 = Ok rows
       /\ List.length rows = 5%nat
       /\ map Executor_Count rows = [2; 4; 6; 8; 10]%Z.
Proof.
  intros task_df.
  assert (Htotal : spark_sum (map (fun r => Some (executor_run_time_ms r)) task_df)
                   = Some (10 * 1000)) by reflexivity.
  split; [exact Htotal | ].
  destruct (estimate_runtime_scaling_rows task_df 10 90 2 10 (10 * 1000) Htotal)
    as [_ [_ H]].
  destruct H as [rows [Hr [Hl [Hc _]]]].
  - vm_compute. discriminate.
  - vm_compute. discriminate.
  - intros [Hz | [m [Hm Hz]]].
    + vm_compute in Hz. discriminate Hz.
    + simpl in Hm.
      destruct Hm as [Hm | [Hm | [Hm | [Hm | [Hm | []]]]]]; subst m;
        vm_compute in Hz; discriminate Hz.
  - exists rows. split; [exact Hr | split; [exact Hl | exact Hc]].
Defined.

(** ** The recommendation rules *)

Lemma value_eqb_eq (a b : value) : value_eqb a b = true <-> a = b.
Proof.
  destruct a as [x | x | ], b as [y | y | ]; simpl;
    try (split; [discriminate | congruence]).
  - rewrite Bool.eqb_true_iff. split; congruence.
  - rewrite String.eqb_eq. split; congruence.
  - split; reflexivity.
Qed.

Lemma select_unquoted_session_tag (metadata_df : metadata) :
  select_unquoted "spark.synapse.session.tag.HIGH_CONCURRENCY_SESSION_TAG" metadata_df
  = Raise AnalysisException.
Proof. reflexivity. Qed.

(** Rule 4 gives no advice: when both columns are there, the select of
    line 195 raises; when one is missing the rule is skipped. *)
Lemma rule4_cases (driver_pct : Q) (metadata_df : metadata) :
  ((exists hc_enabled artifact_type,
      column "spark.synapse.session.tag.HIGH_CONCURRENCY_SESSION_TAG" metadata_df
      = Some hc_enabled
      /\ column "artifactType" metadata_df = Some artifact_type)
   /\ rule4 driver_pct metadata_df = Raise AnalysisException)
  \/ ((column "spark.synapse.session.tag.HIGH_CONCURRENCY_SESSION_TAG" metadata_df
       = None
       \/ column "artifactType" metadata_df = None)
      /\ rule4 driver_pct metadata_df = Ok []).
Proof.
  unfold rule4.
  destruct (column "spark.synapse.session.tag.HIGH_CONCURRENCY_SESSION_TAG" metadata_df)
    as [hc | ].
  2: { right. split; [left; reflexivity | reflexivity]. }
  destruct (column "artifactType" metadata_df) as [art | ].
  2: { right. split; [right; reflexivity | reflexivity]. }
  left. split; [exists hc, art; split; reflexivity | ].
  rewrite select_unquoted_session_tag. reflexivity.
Qed.

Lemma other_rules_silent (driver_pct executor_pct : Q) (metadata_df : metadata) :
  ~ In rec_high_concurrency
       (rule1 driver_pct ++ rule2 executor_pct metadata_df ++ rule3 driver_pct).
Proof.
  rewrite !in_app_iff. unfold rule1, rule2, rule3.
  intros [H | [H | H]].
  - destruct (Qltb 70 driver_pct); [ | contradiction].
    destruct H as [H | []]. discriminate H.
  - destruct (column "spark.native.enabled" metadata_df); [ | contradiction].
    destruct (_ && _); [ | contradiction].
    destruct H as [H | []]. discriminate H.
  - destruct (Qltb 99 driver_pct); [ | contradiction].
    destruct H as [H | []]. discriminate H.
Qed.

(** ** C3 *)

(** Whenever both columns of the guard of line 194 are present and the
    runtime is not zero, the function raises instead of returning a frame. *)
Lemma generate_recommendations_session_tag
  (app_id : string)
  (app_duration_sec driver_wall_clock_sec executor_wall_clock_sec : Q)
  (metadata_df : metadata) (task_df : list task_row) (hc_enabled artifact_type : value) :
  ~ app_duration_sec == 0 ->
  column "spark.synapse.session.tag.HIGH_CONCURRENCY_SESSION_TAG" metadata_df
  = Some hc_enabled ->
  column "artifactType" metadata_df = Some artifact_type ->
  generate_recommendations app_id app_duration_sec driver_wall_clock_sec
                           executor_wall_clock_sec metadata_df task_df
  = Raise AnalysisException.
Proof.
  intros Hz Hh Ha. unfold generate_recommendations.
  rewrite !py_div_ok by exact Hz. cbn [bind].
  destruct (rule4_cases (100 * driver_wall_clock_sec / app_duration_sec) metadata_df)
    as [[_ E] | [[H | H] _]]; [rewrite E; reflexivity | congruence | congruence].
Qed.


(** ** Runs that raise *)

Lemma critical_path_empty : critical_path_time_sec [] = None.
Proof. reflexivity. Qed.

Lemma metrics_of_zero_runtime
  (app_duration_sec executor_wall_clock_sec driver_wall_clock_sec : Q)
  (max_executors : Z) (critical_path_sec : option Q) :
  app_duration_sec == 0 ->
  metrics_of app_duration_sec executor_wall_clock_sec driver_wall_clock_sec
             max_executors critical_path_sec = Raise ZeroDivisionError.
Proof.
  intros H. unfold metrics_of. rewrite py_div_zero by exact H. reflexivity.
Qed.

Lemma metrics_of_absent_critical_path
  (app_duration_sec executor_wall_clock_sec driver_wall_clock_sec : Q)
  (max_executors : Z) :
  ~ app_duration_sec == 0 ->
  metrics_of app_duration_sec executor_wall_clock_sec driver_wall_clock_sec
             max_executors None = Raise TypeError.
Proof.
  intros H. unfold metrics_of. rewrite !py_div_ok by exact H. reflexivity.
Qed.

(** With an application runtime of 0.0 the predictions are empty or the
    predictor has already raised the division by zero. *)
Lemma predictions_of_zero_runtime
  (tasks_df : list task_row) (app_duration_sec executor_wall_clock_sec : Q)
  (max_executors : Z) :
  app_duration_sec == 0 ->
  let predictions :=
    snd (predictions_of tasks_df executor_wall_clock_sec
           (app_duration_sec - executor_wall_clock_sec) max_executors
           (critical_path_time_sec tasks_df)) in
  predictions = Ok [] \/ predictions = Raise ZeroDivisionError.
Proof.
  intros Hz predictions. unfold predictions, predictions_of.
  destruct (critical_path_time_sec tasks_df) as [c | ] eqn:Ec; [ | left; reflexivity].
  destruct (truthy (Some c)); [ | left; reflexivity].
  cbn [snd].
  assert (Hne : tasks_df <> []).
  { intros E. rewrite E, critical_path_empty in Ec. discriminate Ec. }
  destruct (total_task_time_ms_value tasks_df Hne) as [total [Ht _]].
  destruct (estimate_runtime_scaling_cases tasks_df executor_wall_clock_sec
              (app_duration_sec - executor_wall_clock_sec) max_executors c total Ht)
    as [Hempty [Hraise _]].
  destruct (Qeq_dec total 0) as [H1 | H1]; [left; apply Hempty; left; exact H1 | ].
  destruct (Qeq_dec executor_wall_clock_sec 0) as [H2 | H2];
    [left; apply Hempty; right; exact H2 | ].
  right. apply Hraise; [exact H1 | exact H2 | ]. left. lra.
Qed.

Lemma zero_runtime_raises
  (event_log_df : event_log) (metadata_df : metadata) (app_id : string) :
  compute_application_runtime event_log_df == 0 ->
  snd (compute_stage_task_summary event_log_df metadata_df app_id)
  = Raise ZeroDivisionError.
Proof.
  intros Hz. unfold compute_stage_task_summary.
  pose proof (predictions_of_zero_runtime (tasks_df_of event_log_df)
                (compute_application_runtime event_log_df)
                (compute_executor_wall_clock_time event_log_df)
                (count_distinct (map executor_id (tasks_df_of event_log_df))) Hz)
    as Hp.
  cbv zeta in Hp.
  destruct (predictions_of _ _ _ _ _) as [printed predictions].
  cbn [snd] in *.
  destruct Hp as [Hp | Hp]; rewrite Hp; cbn [bind]; [ | reflexivity].
  rewrite metrics_of_zero_runtime by exact Hz. reflexivity.
Qed.

(** A run without any successful task and with a runtime that is not zero:
    the note is printed, the predictions are empty, and [round(None, 2)]
    raises. *)
Lemma no_successful_task_raises
  (event_log_df : event_log) (metadata_df : metadata) (app_id : string) :
  tasks_df_of event_log_df = [] ->
  ~ compute_application_runtime event_log_df == 0 ->
  critical_path_time_sec (tasks_df_of event_log_df) = None
  /\ predictions_of (tasks_df_of event_log_df)
       (compute_executor_wall_clock_time event_log_df)
       (compute_application_runtime event_log_df
        - compute_executor_wall_clock_time event_log_df)
       (count_distinct (map executor_id (tasks_df_of event_log_df)))
       (critical_path_time_sec (tasks_df_of event_log_df))
     = (CriticalPathNotComputed, Ok [])
  /\ compute_stage_task_summary event_log_df metadata_df app_id
     = ([CriticalPathNotComputed], Raise TypeError).
Proof.
  intros He Hz. unfold compute_stage_task_summary. rewrite He.
  rewrite critical_path_empty. cbn [predictions_of bind].
  split; [reflexivity | split; [reflexivity | ]].
  rewrite metrics_of_absent_critical_path by exact Hz. reflexivity.
Qed.

(** ** C5 *)

Lemma runtime_without_start (event_log_df : event_log) :
  start_rows event_log_df = [] -> compute_application_runtime event_log_df = 0.
Proof.
  intros H. unfold compute_application_runtime. rewrite H. reflexivity.
Qed.

(** C5: for a run whose application runtime is 0.0, the computation of the
    percentage shares raises the division by zero, the loop catches it and
    appends one error row for that application, no metric, prediction or
    recommendation row is produced for the run (so no undefined value can
    reach an output row), and the loop goes on with the remaining runs.  A
    run without application-start event, whose runtime is 0.0 as well, is
    not computed at all and gets the error row of the missing event. *)
Theorem zero_runtime_reported
  (event_log_df : list (string * EventRecord))
  (metadata_df : list (string * metadata))
  (st : batch) (app_id : string) (rest : list string) :
  compute_application_runtime (rows_of_app app_id event_log_df) == 0 ->
  exists error printed,
    let st' :=
      {| summary_dfs := summary_dfs st ++ [ErrorRow app_id error];
         metrics_df := metrics_df st;
         predictions_df := predictions_df st;
         recommendations_df := recommendations_df st;
         stdout := stdout st ++ printed |} in
    process_application event_log_df metadata_df st app_id = st'
    /\ (start_rows (rows_of_app app_id event_log_df) <> [] ->
        error = ExceptionText ZeroDivisionError
        /\ snd (compute_stage_task_summary
                  (rows_of_app app_id event_log_df)
                  match rows_of_app app_id metadata_df with
                  | first_row :: _ => first_row
                  | [] => []
                  end app_id) = Raise ZeroDivisionError)
    /\ (start_rows (rows_of_app app_id event_log_df) = [] ->
        error = MissingStartEvent)
    /\ process_applications event_log_df metadata_df (app_id :: rest) st
       = process_applications event_log_df metadata_df rest st'.
Proof.
  intros Hz.
  set (md := match rows_of_app app_id metadata_df with
             | first_row :: _ => first_row
             | [] => []
             end).
  pose proof (zero_runtime_raises (rows_of_app app_id event_log_df) md app_id Hz)
    as Hr.
  assert (Hstep : exists error printed,
             process_application event_log_df metadata_df st app_id
             = {| summary_dfs := summary_dfs st ++ [ErrorRow app_id error];
                  metrics_df := metrics_df st;
                  predictions_df := predictions_df st;
                  recommendations_df := recommendations_df st;
                  stdout := stdout st ++ printed |}
             /\ (start_rows (rows_of_app app_id event_log_df) <> [] ->
                 error = ExceptionText ZeroDivisionError)
             /\ (start_rows (rows_of_app app_id event_log_df) = [] ->
                 error = MissingStartEvent)).
  { unfold process_application. fold md.
    destruct (start_rows (rows_of_app app_id event_log_df)) as [ | ts more] eqn:Es.
    - exists MissingStartEvent, []. cbn [firstn]. rewrite app_nil_r.
      split; [reflexivity | split; [congruence | reflexivity]].
    - cbn [firstn].
      destruct (compute_stage_task_summary (rows_of_app app_id event_log_df) md app_id)
        as [printed outcome].
      cbn [snd] in Hr. subst outcome.
      exists (ExceptionText ZeroDivisionError), printed.
      split; [reflexivity | split; [reflexivity | discriminate]]. }
  destruct Hstep as [error [printed [Hstep [H1 H2]]]].
  exists error, printed. cbv zeta.
  split; [exact Hstep | ].
  split; [intros Hs; split; [apply H1, Hs | exact Hr] | ].
  split; [exact H2 | ].
  unfold process_applications. cbn [fold_left]. rewrite Hstep. reflexivity.
Qed.

Lemma zero_runtime_reported_witness :
  let event_log_df :=
    [ ("app"%string, SparkListenerApplicationStart 0);
      ("app"%string,
       SparkListenerTaskEnd (mkTask 0 0 1 "1" (Some 0%Z) (Some 10000%Z) false 10000)) ] in
  let metadata_df := [("app"%string, [] : metadata)] in
  compute_application_runtime (rows_of_app "app" event_log_df) == 0
  /\ summary_dfs (run_notebook event_log_df metadata_df)
     = [ErrorRow "app" (ExceptionText ZeroDivisionError)]
  /\ metrics_df (run_notebook event_log_df metadata_df) = []
  /\ predictions_df (run_notebook event_log_df metadata_df) = []
  /\ recommendations_df (run_notebook event_log_df metadata_df) = [].
Proof.
  intros event_log_df metadata_df.
  assert (Hz : compute_application_runtime (rows_of_app "app" event_log_df) == 0)
    by (vm_compute; reflexivity).
  split; [exact Hz | ].
  destruct (zero_runtime_reported event_log_df metadata_df empty_batch "app" [] Hz)
    as [error [printed [Hstep [Herr _]]]].
  cbv zeta in Hstep.
  destruct Herr as [Herr _]; [vm_compute; discriminate | ]. subst error.
  unfold run_notebook, process_applications.
  change (app_ids_of metadata_df) with ["app"%string].
  cbn [fold_left]. rewrite Hstep. repeat split; reflexivity.
Defined.

(** ** C2 *)

(** C2: the code departs from the claim.  On a run whose only task failed
    (application start at 0 ms, end at 20000 ms), the critical path is
    absent, the note is printed and the predictions are empty, but the
    metric list then raises a TypeError on rounding the absent critical
    path: the run produces no metric and ends as an error row. *)
Theorem no_successful_task_run :
  let event_log_df :=
    [ SparkListenerApplicationStart 0;
      SparkListenerTaskEnd (mkTask 0 0 1 "1" (Some 0%Z) (Some 10000%Z) true 10000);
      SparkListenerApplicationEnd 20000 ] in
  let batch_log := map (pair "app"%string) event_log_df in
  tasks_df_of event_log_df = []
  /\ critical_path_time_sec (tasks_df_of event_log_df) = None
  /\ compute_stage_task_summary event_log_df [] "app"
     = ([CriticalPathNotComputed], Raise TypeError)
  /\ run_notebook batch_log [("app"%string, [])]
     = {| summary_dfs := [ErrorRow "app" (ExceptionText TypeError)];
          metrics_df := [];
          predictions_df := [];
          recommendations_df := [];
          stdout := [CriticalPathNotComputed] |}.
Proof.
  intros event_log_df batch_log.
  split; [reflexivity | split; [reflexivity | split]]; vm_compute; reflexivity.
Qed.

(** * Further properties of the notebook *)

(** ** The merged intervals *)

Lemma div1000_le (a b : Q) : a <= b -> a / 1000 <= b / 1000.
Proof.
  intros H. unfold Qdiv. apply Qmult_le_compat_r; [exact H | ].
  apply Qinv_le_0_compat. lra.
Qed.

Lemma div1000_sub (a b : Z) :
  inject_Z a / 1000 - inject_Z b / 1000 == inject_Z (a - b) / 1000.
Proof.
  unfold Z.sub. rewrite inject_Z_plus, inject_Z_opp. field.
Qed.

Lemma merged_from_head (cur : interval) (rows : list interval) :
  exists last rest, merged_from cur rows = last :: rest /\ fst last = fst cur.
Proof.
  revert cur. induction rows as [ | [s e] rows IH]; intros cur; simpl.
  - exists cur, []. split; reflexivity.
  - destruct (Qltb (snd cur) s).
    + exists cur, (merged_from (s, e) rows). split; reflexivity.
    + destruct (IH (fst cur, py_max (snd cur) e)) as [l [r [H1 H2]]].
      exists l, r. split; assumption.
Qed.

Lemma merged_from_gaps (cur : interval) (rows : list interval) :
  Sorted gap (merged_from cur rows).
Proof.
  revert cur. induction rows as [ | [s e] rows IH]; intros cur; simpl.
  - repeat constructor.
  - destruct (Qltb (snd cur) s) eqn:E.
    + constructor; [apply IH | ].
      destruct (merged_from_head (s, e) rows) as [l [r [H1 H2]]].
      rewrite H1. constructor. unfold gap. rewrite H2. simpl.
      apply Qltb_lt, E.
    + apply IH.
Qed.

Lemma merged_from_starts (cur : interval) (rows : list interval) (out : interval) :
  In out (merged_from cur rows) ->
  fst out = fst cur \/ exists row, In row rows /\ fst out = fst row.
Proof.
  revert cur. induction rows as [ | [s e] rows IH]; intros cur; simpl.
  - intros [H | []]. left. subst out. reflexivity.
  - destruct (Qltb (snd cur) s).
    + intros [H | H]; [left; subst out; reflexivity | ].
      right. apply IH in H. destruct H as [H | [row [Hin H]]].
      * exists (s, e). split; [left; reflexivity | exact H].
      * exists row. split; [right; exact Hin | exact H].
    + intros H. apply IH in H. destruct H as [H | [row [Hin H]]].
      * left. exact H.
      * right. exists row. split; [right; exact Hin | exact H].
Qed.

Lemma merged_from_sorted (cur : interval) (rows : list interval) :
  StronglySorted start_le (cur :: rows) ->
  StronglySorted start_le (merged_from cur rows).
Proof.
  revert cur. induction rows as [ | [s e] rows IH]; intros cur Hs; simpl.
  - repeat constructor.
  - inversion Hs as [ | x r Hs1 Hf1]; subst.
    inversion Hs1 as [ | x r Hs2 Hf2]; subst.
    inversion Hf1 as [ | x r Hcx Hf1']; subst.
    destruct (Qltb (snd cur) s).
    + constructor; [apply IH, Hs1 | ].
      rewrite Forall_forall in *. intros out Hout.
      apply merged_from_starts in Hout. unfold start_le in *.
      destruct Hout as [H | [row [Hin H]]]; rewrite H.
      * exact Hcx.
      * apply Hf1', Hin.
    + apply IH. constructor; [exact Hs2 | exact Hf1'].
Qed.

Lemma merged_from_valid (cur : interval) (rows : list interval) :
  valid_interval cur -> Forall valid_interval rows ->
  Forall valid_interval (merged_from cur rows).
Proof.
  revert cur. induction rows as [ | [s e] rows IH]; intros cur Hc Hr; simpl.
  - repeat constructor. exact Hc.
  - inversion Hr as [ | x r Hx Hr']; subst.
    destruct (Qltb (snd cur) s) eqn:E.
    + constructor; [exact Hc | apply IH; assumption].
    + apply IH; [ | exact Hr'].
      unfold valid_interval in *; simpl. rewrite py_max_Qmax.
      pose proof (Q.le_max_l (snd cur) e). lra.
Qed.

Lemma orderBy_sorted_id {R : Type} (leb : R -> R -> bool) (l : list R) :
  StronglySorted (fun a b => leb a b = true) l -> orderBy leb l = l.
Proof.
  induction 1 as [ | x l Hs IH Hx]; simpl; [reflexivity | ].
  rewrite IH. destruct l as [ | y l']; [reflexivity | ].
  simpl. inversion Hx as [ | a b Hxy _]; subst. rewrite Hxy. reflexivity.
Qed.

Lemma merged_from_separated (cur : interval) (rows : list interval) :
  Sorted gap (cur :: rows) -> merged_from cur rows = cur :: rows.
Proof.
  revert cur. induction rows as [ | [s e] rows IH]; intros cur Hs; simpl.
  - reflexivity.
  - inversion Hs as [ | x r Hs1 Hh]; subst.
    inversion Hh as [ | a b Hg]; subst. unfold gap in Hg; simpl in Hg.
    rewrite (proj2 (Qltb_lt _ _) Hg). rewrite IH by exact Hs1. reflexivity.
Qed.

Lemma merged_intervals_of_cases (intervals : list interval) :
  (orderBy start_leb intervals = [] /\ merged_intervals_of intervals = [])
  \/ exists cur rows,
       orderBy start_leb intervals = cur :: rows
       /\ merged_intervals_of intervals = merged_from cur rows.
Proof.
  unfold merged_intervals_of.
  destruct (orderBy start_leb intervals) as [ | cur rows].
  - left. split; reflexivity.
  - right. exists cur, rows. split; [reflexivity | apply merge_intervals_cons].
Qed.

Lemma merged_intervals_shape (intervals : list interval) :
  Sorted gap (merged_intervals_of intervals)
  /\ StronglySorted start_le (merged_intervals_of intervals)
  /\ (Forall valid_interval intervals ->
      Forall valid_interval (merged_intervals_of intervals)).
Proof.
  pose proof (orderBy_start_sorted intervals) as Hs.
  pose proof (orderBy_perm start_leb intervals) as Hp.
  destruct (merged_intervals_of_cases intervals)
    as [[_ E] | [cur [rows [Eo E]]]]; rewrite E.
  - repeat split; constructor.
  - rewrite Eo in *. split; [apply merged_from_gaps | ].
    split; [apply merged_from_sorted, Hs | ].
    intros Hv.
    assert (Hv' : Forall valid_interval (cur :: rows)).
    { eapply Permutation_Forall; [apply Permutation_sym, Hp | exact Hv]. }
    inversion Hv'; subst. apply merged_from_valid; assumption.
Qed.

(** X1: the merged intervals are separated by gaps (each ends strictly
    before the next starts) and are in ascending order of start; when every
    input interval has start <= end, so has every merged one. *)
Theorem merged_intervals_separated (intervals : list interval) :
  Sorted gap (merged_intervals_of intervals)
  /\ StronglySorted start_le (merged_intervals_of intervals)
  /\ (Forall valid_interval intervals ->
      Forall valid_interval (merged_intervals_of intervals)).
Proof. apply merged_intervals_shape. Qed.

(** X2: merging is idempotent: running the ordering and the merge loop on
    the merged intervals returns them unchanged. *)
Theorem merged_intervals_idempotent (intervals : list interval) :
  merged_intervals_of (merged_intervals_of intervals)
  = merged_intervals_of intervals.
Proof.
  destruct (merged_intervals_shape intervals) as [Hg [Hs _]].
  set (m := merged_intervals_of intervals) in *.
  unfold merged_intervals_of at 1.
  rewrite orderBy_sorted_id.
  - destruct m as [ | cur rows]; [reflexivity | ].
    rewrite merge_intervals_cons. apply merged_from_separated, Hg.
  - eapply StronglySorted_impl; [ | exact Hs].
    intros a b Hab. apply Qle_bool_iff, Hab.
Qed.

Lemma merge_from_ge (cur : interval) (rest : list interval) :
  valid_interval cur -> Forall valid_interval rest ->
  StronglySorted start_le (cur :: rest) ->
  forall i, In i (cur :: rest) ->
    interval_length i <= IntervalMergerSpec.merge_from cur rest.
Proof.
  revert cur. induction rest as [ | [s e] rest IH]; intros [cs ce] Hc Hr Hs i Hi.
  - destruct Hi as [Hi | []]. subst i. simpl. unfold interval_length. simpl. lra.
  - inversion Hr as [ | x r Hx Hr']; subst.
    inversion Hs as [ | x r Hs1 Hf1]; subst.
    inversion Hs1 as [ | x r Hs2 Hf2]; subst.
    inversion Hf1 as [ | x r Hcs Hf1']; subst.
    unfold start_le in Hcs; simpl in Hcs.
    unfold valid_interval in Hc, Hx; simpl in Hc, Hx.
    simpl IntervalMergerSpec.merge_from.
    destruct (Qle_bool s ce) eqn:E.
    + apply Qle_bool_iff in E.
      set (cur' := (cs, Qmax ce e)).
      assert (Hc' : valid_interval cur').
      { unfold valid_interval; simpl. pose proof (Q.le_max_l ce e). lra. }
      assert (Hs' : StronglySorted start_le (cur' :: rest)).
      { constructor; [exact Hs2 | exact Hf1']. }
      pose proof (IH cur' Hc' Hr' Hs' cur' (or_introl eq_refl)) as Hcur.
      unfold interval_length in Hcur; simpl in Hcur.
      pose proof (Q.le_max_l ce e). pose proof (Q.le_max_r ce e).
      destruct Hi as [Hi | [Hi | Hi]].
      * subst i. unfold interval_length; simpl. lra.
      * subst i. unfold interval_length; simpl. lra.
      * apply (IH cur' Hc' Hr' Hs'). right. exact Hi.
    + pose proof (IH (s, e) Hx Hr' Hs1 (s, e) (or_introl eq_refl)) as Hnext.
      unfold interval_length in Hnext; simpl in Hnext.
      destruct Hi as [Hi | Hi].
      * subst i. unfold interval_length; simpl. lra.
      * pose proof (IH (s, e) Hx Hr' Hs1 i Hi). lra.
Qed.

Lemma merge_from_span (cur : interval) (rest : list interval) (hi : Q) :
  snd cur <= hi -> Forall (fun i => snd i <= hi) rest ->
  IntervalMergerSpec.merge_from cur rest <= hi - fst cur.
Proof.
  revert cur. induction rest as [ | [s e] rest IH]; intros [cs ce] Hc Hr; simpl in *.
  - lra.
  - inversion Hr as [ | x r Hx Hr']; subst. simpl in Hx.
    destruct (Qle_bool s ce) eqn:E.
    + assert (Hm : Qmax ce e <= hi) by (apply Q.max_lub; assumption).
      specialize (IH (cs, Qmax ce e) Hm Hr'). simpl in IH. exact IH.
    + assert (E' : ce < s).
      { apply Qltb_lt. unfold Qltb. rewrite E. reflexivity. }
      specialize (IH (s, e) Hx Hr'). simpl in IH. lra.
Qed.

Lemma interval_merger_lower (intervals : list interval) :
  Forall valid_interval intervals ->
  0 <= interval_merger intervals
  /\ forall i, In i intervals -> interval_length i <= interval_merger intervals.
Proof.
  intros Hv.
  pose proof (orderBy_perm start_leb intervals) as Hp.
  pose proof (orderBy_start_sorted intervals) as Hs.
  assert (Hv' : Forall valid_interval (orderBy start_leb intervals)).
  { eapply Permutation_Forall; [apply Permutation_sym, Hp | exact Hv]. }
  assert (Hin : forall i, In i intervals -> In i (orderBy start_leb intervals)).
  { intros i Hi. eapply Permutation_in; [apply Permutation_sym, Hp | exact Hi]. }
  pose proof (interval_merger_refines intervals) as E.
  unfold IntervalMergerSpec.coverage in E.
  destruct (orderBy start_leb intervals) as [ | cur rest].
  - split; [lra | ]. intros i Hi. destruct (Hin i Hi).
  - inversion Hv' as [ | x r Hc Hr]; subst.
    pose proof (merge_from_ge cur rest Hc Hr Hs) as Hge.
    split.
    + specialize (Hge cur (or_introl eq_refl)).
      unfold valid_interval, interval_length in *. lra.
    + intros i Hi. specialize (Hge i (Hin i Hi)). lra.
Qed.

Lemma interval_merger_upper (intervals : list interval) (lo hi : Q) :
  lo <= hi ->
  Forall (fun i => lo <= fst i /\ snd i <= hi) intervals ->
  interval_merger intervals <= hi - lo.
Proof.
  intros Hlh Hb.
  pose proof (orderBy_perm start_leb intervals) as Hp.
  assert (Hb' : Forall (fun i => lo <= fst i /\ snd i <= hi)
                       (orderBy start_leb intervals)).
  { eapply Permutation_Forall; [apply Permutation_sym, Hp | exact Hb]. }
  rewrite interval_merger_refines. unfold IntervalMergerSpec.coverage.
  destruct (orderBy start_leb intervals) as [ | cur rest].
  - lra.
  - inversion Hb' as [ | x r [Hc1 Hc2] Hr]; subst.
    assert (Hr' : Forall (fun i => snd i <= hi) rest).
    { eapply Forall_impl; [ | exact Hr]. intros i [_ H]. exact H. }
    pose proof (merge_from_span cur rest hi Hc2 Hr'). lra.
Qed.

(** X3: when every interval has start <= end, the merged coverage is not
    negative and is at least the length of each single interval: the
    executor wall-clock time is never shorter than the longest task. *)
Theorem interval_merger_covers_each (intervals : list interval) :
  Forall valid_interval intervals ->
  0 <= interval_merger intervals
  /\ forall i, In i intervals -> interval_length i <= interval_merger intervals.
Proof. apply interval_merger_lower. Qed.

Lemma interval_merger_covers_each_witness :
  let intervals := [(0, 10); (5, 15); (20, 25)] in
  Forall valid_interval intervals
  /\ 0 <= interval_merger intervals
  /\ forall i, In i intervals -> interval_length i <= interval_merger intervals.
Proof.
  intros intervals.
  assert (Hv : Forall valid_interval intervals).
  { repeat constructor; unfold valid_interval; simpl; lra. }
  split; [exact Hv | exact (interval_merger_covers_each intervals Hv)].
Defined.

(** X4: the merged coverage never exceeds the span of the input: if every
    interval starts at or after [lo] and ends at or before [hi], the
    coverage is at most [hi - lo]. *)
Theorem interval_merger_within_span (intervals : list interval) (lo hi : Q) :
  lo <= hi ->
  Forall (fun i => lo <= fst i /\ snd i <= hi) intervals ->
  interval_merger intervals <= hi - lo.
Proof. apply interval_merger_upper. Qed.

Lemma interval_merger_within_span_witness :
  let intervals := [(0, 10); (5, 15); (20, 25)] in
  0 <= 25
  /\ Forall (fun i => 0 <= fst i /\ snd i <= 25) intervals
  /\ interval_merger intervals <= 25 - 0.
Proof.
  intros intervals.
  assert (Hlh : 0 <= 25) by lra.
  assert (Hb : Forall (fun i => 0 <= fst i /\ snd i <= 25) intervals).
  { repeat constructor; simpl; lra. }
  split; [exact Hlh | split; [exact Hb | ]].
  exact (interval_merger_within_span intervals 0 25 Hlh Hb).
Defined.

(** ** Driver time *)

Lemma task_intervals_within (event_log_df : event_log) (s e : Z) :
  Forall (fun t => forall a b,
            Launch_Time t = Some a -> Finish_Time t = Some b ->
            (s <= a)%Z /\ (b <= e)%Z)
         (task_end_rows event_log_df) ->
  Forall (fun i => inject_Z s / 1000 <= fst i /\ snd i <= inject_Z e / 1000)
         (all_task_intervals event_log_df).
Proof.
  unfold all_task_intervals.
  induction 1 as [ | t ts Ht _ IH]; simpl; [constructor | ].
  apply Forall_app. split; [ | exact IH].
  unfold task_interval.
  destruct (Launch_Time t) as [a | ]; [ | constructor].
  destruct (Finish_Time t) as [b | ]; [ | constructor].
  destruct (Ht a b eq_refl eq_refl) as [H1 H2].
  repeat constructor; simpl; apply div1000_le; rewrite <- Zle_Qle; assumption.
Qed.

(** X5: when the first application-start event is at [s], the first
    application-end event at [e >= s], and every task with both times runs
    inside [s, e], the executor wall-clock time is at most the application
    runtime, so the driver wall-clock time is not negative. *)
Theorem driver_wall_clock_nonneg (event_log_df : event_log) (s e : Z) :
  hd_error (start_rows event_log_df) = Some s ->
  hd_error (end_rows event_log_df) = Some e ->
  (s <= e)%Z ->
  Forall (fun t => forall a b,
            Launch_Time t = Some a -> Finish_Time t = Some b ->
            (s <= a)%Z /\ (b <= e)%Z)
         (task_end_rows event_log_df) ->
  compute_executor_wall_clock_time event_log_df
  <= compute_application_runtime event_log_df
  /\ 0 <= driver_wall_clock_sec_of event_log_df.
Proof.
  intros Hs He Hse Hin.
  assert (Hrt : compute_application_runtime event_log_df
                = inject_Z e / 1000 - inject_Z s / 1000).
  { unfold compute_application_runtime.
    destruct (start_rows event_log_df) as [ | s' ss]; [discriminate | ].
    destruct (end_rows event_log_df) as [ | e' es]; [discriminate | ].
    simpl in *. congruence. }
  assert (Hw : compute_executor_wall_clock_time event_log_df
               <= inject_Z e / 1000 - inject_Z s / 1000).
  { apply interval_merger_upper.
    - apply div1000_le. rewrite <- Zle_Qle. exact Hse.
    - apply task_intervals_within, Hin. }
  unfold driver_wall_clock_sec_of. rewrite Hrt. split; lra.
Qed.

Lemma driver_wall_clock_nonneg_witness :
  let event_log_df :=
    [ SparkListenerApplicationStart 0;
      SparkListenerTaskEnd (mkTask 0 0 1 "1" (Some 1000%Z) (Some 9000%Z) false 8000);
      SparkListenerApplicationEnd 20000 ] in
  hd_error (start_rows event_log_df) = Some 0%Z
  /\ hd_error (end_rows event_log_df) = Some 20000%Z
  /\ compute_executor_wall_clock_time event_log_df
     <= compute_application_runtime event_log_df
  /\ 0 <= driver_wall_clock_sec_of event_log_df.
Proof.
  intros event_log_df.
  assert (Hs : hd_error (start_rows event_log_df) = Some 0%Z) by reflexivity.
  assert (He : hd_error (end_rows event_log_df) = Some 20000%Z) by reflexivity.
  assert (Hse : (0 <= 20000)%Z) by lia.
  assert (Hin : Forall (fun t => forall a b,
                          Launch_Time t = Some a -> Finish_Time t = Some b ->
                          (0 <= a)%Z /\ (b <= 20000)%Z)
                       (task_end_rows event_log_df)).
  { repeat constructor; simpl in *; injection H as <-; injection H0 as <-; lia. }
  split; [exact Hs | split; [exact He | ]].
  exact (driver_wall_clock_nonneg event_log_df 0 20000 Hs He Hse Hin).
Defined.

(** ** The estimates of the scaling predictor *)

Lemma Qdiv_nonneg (p n : Q) : 0 <= p -> 0 < n -> 0 <= p / n.
Proof.
  intros Hp Hn. apply Qle_shift_div_l; [exact Hn | lra].
Qed.

Lemma inject_Z_ge_1 (n : Z) : (1 <= n)%Z -> 1 <= inject_Z n.
Proof.
  intros H. assert (H' : inject_Z 1 <= inject_Z n) by (rewrite <- Zle_Qle; exact H).
  exact H'.
Qed.

Lemma estimated_executor_sec_range
  (critical_path_ms total_task_time_ms : Q) (current_executors : Z) (multiplier : Q) :
  critical_path_ms <= total_task_time_ms ->
  let estimated_executor_sec :=
    estimated_executor_sec_of critical_path_ms
      (total_task_time_ms - critical_path_ms)
      (new_executors_of current_executors multiplier) in
  critical_path_ms / 1000 <= estimated_executor_sec
  /\ estimated_executor_sec <= total_task_time_ms / 1000.
Proof.
  intros Hle est. unfold est, estimated_executor_sec_of.
  pose proof (inject_Z_ge_1 _ (new_executors_positive current_executors multiplier)) as Hn.
  set (n := inject_Z (new_executors_of current_executors multiplier)) in *.
  set (p := total_task_time_ms - critical_path_ms).
  assert (Hp : 0 <= p) by (unfold p; lra).
  assert (H0 : 0 <= p / n) by (apply Qdiv_nonneg; lra).
  assert (H1 : p / n <= p / 1) by (apply Qdiv_le_denominator; lra).
  assert (E : p / 1 == p) by (field).
  split; apply div1000_le; unfold p in *; lra.
Qed.

(** X6: when the critical path does not exceed the total task time, the
    estimated executor time of every row lies between the critical path and
    the total task time (both in seconds), whatever the executor count and
    the multiplier: more executors never push the estimate below the
    critical path. *)
Theorem estimated_executor_sec_bounds
  (critical_path_ms total_task_time_ms : Q) (current_executors : Z) (multiplier : Q) :
  critical_path_ms <= total_task_time_ms ->
  let estimated_executor_sec :=
    estimated_executor_sec_of critical_path_ms
      (total_task_time_ms - critical_path_ms)
      (new_executors_of current_executors multiplier) in
  critical_path_ms / 1000 <= estimated_executor_sec
  /\ estimated_executor_sec <= total_task_time_ms / 1000.
Proof. apply estimated_executor_sec_range. Qed.

Lemma estimated_executor_sec_bounds_witness :
  50000 <= 60000
  /\ 50000 / 1000 <= estimated_executor_sec_of 50000 (60000 - 50000) (new_executors_of 2 3)
  /\ estimated_executor_sec_of 50000 (60000 - 50000) (new_executors_of 2 3)
     <= 60000 / 1000.
Proof.
  assert (Hle : 50000 <= 60000) by lra.
  split; [exact Hle | ].
  exact (estimated_executor_sec_bounds 50000 60000 2 3 Hle).
Defined.

Lemma py_max_min_sum (a b : Q) : py_max a b + py_min a b == a + b.
Proof.
  unfold py_max, py_min.
  destruct (Qltb a b) eqn:E1; destruct (Qltb b a) eqn:E2; try lra.
  - apply Qltb_lt in E1. apply Qltb_lt in E2. lra.
  - apply Qltb_ge in E1. apply Qltb_ge in E2. lra.
Qed.

Lemma py_min_nonneg (a b : Q) : 0 <= a -> 0 <= b -> 0 <= py_min a b.
Proof. intros Ha Hb. unfold py_min. destruct (Qltb b a); assumption. Qed.

(** X7: for a driver time that is not negative and a positive estimated
    executor time, the row is produced and its estimated total duration
    lies between the larger of the two times and their sum (the weighted
    estimate of line 141). *)
Theorem estimated_total_between_max_and_sum
  (critical_path_ms parallelizable_ms driver_wall_clock_sec : Q)
  (current_executors : Z) (multiplier : Q) :
  let estimated_executor_sec :=
    estimated_executor_sec_of critical_path_ms parallelizable_ms
      (new_executors_of current_executors multiplier) in
  0 <= driver_wall_clock_sec -> 0 < estimated_executor_sec ->
  exists row,
    prediction_row critical_path_ms parallelizable_ms driver_wall_clock_sec
                   current_executors multiplier = Ok row
    /\ Estimated_Total_Duration row
       = format_min_sec
           (estimated_total_sec_of driver_wall_clock_sec estimated_executor_sec)
    /\ py_max driver_wall_clock_sec estimated_executor_sec
       <= estimated_total_sec_of driver_wall_clock_sec estimated_executor_sec
    /\ estimated_total_sec_of driver_wall_clock_sec estimated_executor_sec
       <= driver_wall_clock_sec + estimated_executor_sec.
Proof.
  intros est Hd He.
  unfold prediction_row. fold est.
  rewrite py_div_ok by lra. cbn [bind].
  eexists. split; [reflexivity | ]. split; [reflexivity | ].
  unfold estimated_total_sec_of.
  set (ratio := driver_wall_clock_sec / (driver_wall_clock_sec + est)).
  assert (Hr0 : 0 <= ratio) by (apply Qdiv_nonneg; lra).
  assert (Hr1 : ratio <= 1) by (apply Qle_shift_div_r; lra).
  pose proof (py_min_nonneg driver_wall_clock_sec est Hd (Qlt_le_weak _ _ He)) as Hm.
  pose proof (py_max_min_sum driver_wall_clock_sec est) as Hsum.
  assert (Hw0 : 0 <= (1 - ratio) * py_min driver_wall_clock_sec est).
  { apply Qmult_le_0_compat; lra. }
  assert (Hw1 : (1 - ratio) * py_min driver_wall_clock_sec est
                <= 1 * py_min driver_wall_clock_sec est).
  { apply Qmult_le_compat_r; lra. }
  split; lra.
Qed.

Lemma estimated_total_between_max_and_sum_witness :
  0 <= 90 /\ 0 < estimated_executor_sec_of 10000 0 (new_executors_of 2 1)
  /\ exists row,
       prediction_row 10000 0 90 2 1 = Ok row
       /\ Estimated_Total_Duration row = "1m 31s"%string.
Proof.
  assert (Hd : 0 <= 90) by lra.
  assert (He : 0 < estimated_executor_sec_of 10000 0 (new_executors_of 2 1))
    by (vm_compute; reflexivity).
  split; [exact Hd | split; [exact He | ]].
  destruct (estimated_total_between_max_and_sum 10000 0 90 2 1 Hd He)
    as [row [Hrow [Hfmt _]]].
  exists row. split; [exact Hrow | ]. rewrite Hfmt. vm_compute. reflexivity.
Defined.

(** ** The minutes and seconds of a formatted duration *)

Lemma py_int_inject_Z (z : Z) : py_int (inject_Z z) = z.
Proof. unfold py_int. simpl. apply Z.quot_1_r. Qed.

Lemma Qfloor_unique (q : Q) (z : Z) :
  inject_Z z <= q -> q < inject_Z z + 1 -> Qfloor q = z.
Proof.
  intros H1 H2.
  assert (Hlo : (z <= Qfloor q)%Z).
  { rewrite <- (Qfloor_Z z). apply Qfloor_resp_le, H1. }
  assert (Hhi : (Qfloor q < z + 1)%Z).
  { rewrite Zlt_Qlt, inject_Z_plus. pose proof (Qfloor_le q).
    change (inject_Z 1) with 1. lra. }
  lia.
Qed.

Lemma py_mod_60_range (x : Q) : 0 <= py_mod x 60 /\ py_mod x 60 < 60.
Proof.
  unfold py_mod.
  pose proof (Qfloor_le (x / 60)) as H1.
  pose proof (Qlt_floor (x / 60)) as H2.
  rewrite inject_Z_plus in H2. change (inject_Z 1) with 1 in H2.
  assert (E : x / 60 * 60 == x) by (field).
  set (f := inject_Z (Qfloor (x / 60))) in *.
  assert (H1' : f * 60 <= x / 60 * 60) by (apply Qmult_le_compat_r; lra).
  assert (H2' : x / 60 * 60 < (f + 1) * 60) by (apply Qmult_lt_compat_r; lra).
  split; lra.
Qed.

(** X8: a duration [x >= 0] is printed as [minutes_of x] and
    [seconds_of x]; the seconds are between 0 and 59, the minutes are not
    negative, and 60 * minutes + seconds is the whole number of seconds of
    [x] (its floor). *)
Theorem format_min_sec_fields (x : Q) :
  0 <= x ->
  format_min_sec x
  = (str_of_Z (minutes_of x) ++ "m " ++ str_of_Z (seconds_of x) ++ "s")%string
  /\ (0 <= seconds_of x <= 59)%Z
  /\ (0 <= minutes_of x)%Z
  /\ (60 * minutes_of x + seconds_of x = Qfloor x)%Z.
Proof.
  intros Hx. split; [reflexivity | ].
  destruct (py_mod_60_range x) as [H0 H60].
  assert (Hs : seconds_of x = Qfloor (py_mod x 60)).
  { unfold seconds_of. apply py_int_nonneg, H0. }
  assert (Hm : minutes_of x = Qfloor (x / 60)).
  { unfold minutes_of, py_floordiv. apply py_int_inject_Z. }
  pose proof (Qfloor_le (py_mod x 60)) as Hfl.
  pose proof (Qlt_floor (py_mod x 60)) as Hfu.
  rewrite inject_Z_plus in Hfu. change (inject_Z 1) with 1 in Hfu.
  assert (Hlo : (0 <= Qfloor (py_mod x 60))%Z).
  { change 0%Z with (Qfloor 0). apply Qfloor_resp_le, H0. }
  assert (Hhi : (Qfloor (py_mod x 60) < 60)%Z).
  { rewrite Zlt_Qlt. change (inject_Z 60) with 60. lra. }
  assert (Hmin : (0 <= Qfloor (x / 60))%Z).
  { change 0%Z with (Qfloor 0). apply Qfloor_resp_le.
    apply Qle_shift_div_l; lra. }
  rewrite Hs, Hm. split; [lia | split; [exact Hmin | ]].
  symmetry. apply Qfloor_unique.
  - rewrite inject_Z_plus, inject_Z_mult. change (inject_Z 60) with 60.
    unfold py_mod in *. lra.
  - rewrite inject_Z_plus, inject_Z_mult. change (inject_Z 60) with 60.
    unfold py_mod in *. lra.
Qed.

Lemma format_min_sec_fields_witness :
  0 <= 125
  /\ format_min_sec 125 = "2m 5s"%string
  /\ (0 <= seconds_of 125 <= 59)%Z
  /\ (0 <= minutes_of 125)%Z
  /\ (60 * minutes_of 125 + seconds_of 125 = Qfloor 125)%Z.
Proof.
  assert (Hx : 0 <= 125) by lra.
  split; [exact Hx | ].
  destruct (format_min_sec_fields 125 Hx) as [_ H].
  split; [vm_compute; reflexivity | exact H].
Defined.

(** ** The recommendation frame *)

Lemma compute_success_inv
  (event_log_df : event_log) (metadata_df : metadata) (app_id : string)
  (out : run_output) :
  snd (compute_stage_task_summary event_log_df metadata_df app_id) = Ok out ->
  let tasks_df := tasks_df_of event_log_df in
  let app_duration_sec := compute_application_runtime event_log_df in
  let executor_wall_clock_sec := compute_executor_wall_clock_time event_log_df in
  let driver_wall_clock_sec := app_duration_sec - executor_wall_clock_sec in
  let max_executors := count_distinct (map executor_id tasks_df) in
  let critical_path_sec := critical_path_time_sec tasks_df in
  final_summary_df out = final_summary_df_of tasks_df
  /\ snd (predictions_of tasks_df executor_wall_clock_sec driver_wall_clock_sec
                         max_executors critical_path_sec)
     = Ok (run_predictions_df out)
  /\ (exists metrics,
        metrics_of app_duration_sec executor_wall_clock_sec driver_wall_clock_sec
                   max_executors critical_path_sec = Ok metrics
        /\ run_metrics_df out = map (fun '(k, v) => mkMetric app_id k v) metrics)
  /\ generate_recommendations app_id app_duration_sec driver_wall_clock_sec
       executor_wall_clock_sec metadata_df tasks_df
     = Ok (run_recommendations_df out).
Proof.
  unfold compute_stage_task_summary. cbv zeta.
  destruct (predictions_of _ _ _ _ _) as [printed predictions].
  cbn [snd].
  destruct predictions as [rows | e]; cbn [bind]; [ | discriminate].
  destruct (metrics_of _ _ _ _ _) as [metrics | e]; cbn [bind]; [ | discriminate].
  destruct (generate_recommendations _ _ _ _ _ _) as [recs | e]; cbn [bind];
    [ | discriminate].
  intros H. injection H as <-. cbn.
  repeat split; try reflexivity. exists metrics. split; reflexivity.
Qed.

Lemma rule1_fires (driver_pct : Q) :
  In rec_driver_heavy (rule1 driver_pct) <-> 70 < driver_pct.
Proof.
  unfold rule1. destruct (Qltb 70 driver_pct) eqn:E.
  - apply Qltb_lt in E. split; [intros _; exact E | intros _; left; reflexivity].
  - apply Qltb_ge in E. split; [contradiction | lra].
Qed.

Lemma rule3_fires (driver_pct : Q) :
  In rec_python_native (rule3 driver_pct) <-> 99 < driver_pct.
Proof.
  unfold rule3. destruct (Qltb 99 driver_pct) eqn:E.
  - apply Qltb_lt in E. split; [intros _; exact E | intros _; left; reflexivity].
  - apply Qltb_ge in E. split; [contradiction | lra].
Qed.

Lemma rule2_fires_only (executor_pct : Q) (metadata_df : metadata) :
  In rec_enable_nee (rule2 executor_pct metadata_df) -> 50 < executor_pct.
Proof.
  unfold rule2. destruct (column "spark.native.enabled" metadata_df); [ | contradiction].
  destruct (value_in v [VBool false; VStr "false"]); [ | contradiction].
  cbn [andb]. destruct (Qltb 50 executor_pct) eqn:E; [ | contradiction].
  intros _. apply Qltb_lt, E.
Qed.

(** The texts of a returned frame: the fired rules in the order 1, 2, 3, or
    the default text when no rule fired; a frame is returned only if rule 4
    was skipped. *)
Lemma generate_recommendations_texts
  (app_id : string)
  (app_duration_sec driver_wall_clock_sec executor_wall_clock_sec : Q)
  (metadata_df : metadata) (task_df : list task_row) (recs : list Recommendation) :
  generate_recommendations app_id app_duration_sec driver_wall_clock_sec
    executor_wall_clock_sec metadata_df task_df = Ok recs ->
  let driver_pct := 100 * driver_wall_clock_sec / app_duration_sec in
  let executor_pct := 100 * executor_wall_clock_sec / app_duration_sec in
  let fired := rule1 driver_pct ++ rule2 executor_pct metadata_df
               ++ rule3 driver_pct in
  ~ app_duration_sec == 0
  /\ (column "spark.synapse.session.tag.HIGH_CONCURRENCY_SESSION_TAG" metadata_df
      = None
      \/ column "artifactType" metadata_df = None)
  /\ Forall (fun r => rec_app_id r = app_id) recs
  /\ ((fired = [] /\ texts_of recs = [rec_none])
      \/ (fired <> [] /\ texts_of recs = fired)).
Proof.
  unfold generate_recommendations.
  destruct (py_div_cases (100 * driver_wall_clock_sec) app_duration_sec)
    as [[Hz E] | [Hz E]]; rewrite E; cbn [bind]; [discriminate | ].
  rewrite py_div_ok by exact Hz. cbn [bind]. cbv zeta.
  destruct (rule4_cases (100 * driver_wall_clock_sec / app_duration_sec) metadata_df)
    as [[_ E4] | [Hcol E4]]; rewrite E4; cbn [bind]; [discriminate | ].
  rewrite app_nil_r.
  set (fired := rule1 _ ++ rule2 _ _ ++ rule3 _).
  intros H. injection H as <-. split; [exact Hz | split; [exact Hcol | ]].
  destruct fired as [ | r fired']; cbn [map].
  - split; [repeat constructor | left; split; reflexivity].
  - split.
    + constructor; [reflexivity | ]. apply Forall_forall. intros x Hx.
      apply in_map_iff in Hx. destruct Hx as [t [<- _]]. reflexivity.
    + right. split; [discriminate | ].
      unfold texts_of. cbn [map recommendation]. rewrite map_map.
      cbn [recommendation]. rewrite map_id. reflexivity.
Qed.

Lemma fired_rule_texts (driver_pct executor_pct : Q) (metadata_df : metadata) (t : string) :
  In t (rule1 driver_pct ++ rule2 executor_pct metadata_df ++ rule3 driver_pct) ->
  In t [rec_driver_heavy; rec_enable_nee; rec_python_native].
Proof.
  rewrite !in_app_iff. unfold rule1, rule2, rule3.
  intros [H | [H | H]].
  - destruct (Qltb 70 driver_pct); [ | contradiction].
    destruct H as [<- | []]. simpl. auto.
  - destruct (column "spark.native.enabled" metadata_df); [ | contradiction].
    destruct (_ && _); [ | contradiction].
    destruct H as [<- | []]. simpl. auto.
  - destruct (Qltb 99 driver_pct); [ | contradiction].
    destruct H as [<- | []]. simpl. auto.
Qed.

(** X9: for a metadata frame with a first row, the recommendation frame is
    never empty and never mixes advice with the default text.  With an
    application runtime of zero the function raises a division by zero;
    with the session-tag column and the artifact type column both present
    it raises the AnalysisException of line 195; in every other case it
    returns a frame whose rows all carry the application id and which is
    either the single row "No performance recommendations found." or made
    of the advice texts of rules 1 to 3. *)
Theorem recommendations_never_empty
  (app_id : string)
  (app_duration_sec driver_wall_clock_sec executor_wall_clock_sec : Q)
  (metadata_df : metadata) (task_df : list task_row) :
  let outcome :=
    generate_recommendations app_id app_duration_sec driver_wall_clock_sec
      executor_wall_clock_sec metadata_df task_df in
  let guard_of_rule4 :=
    exists hc_enabled artifact_type,
      column "spark.synapse.session.tag.HIGH_CONCURRENCY_SESSION_TAG" metadata_df
      = Some hc_enabled
      /\ column "artifactType" metadata_df = Some artifact_type in
  (app_duration_sec == 0 /\ outcome = Raise ZeroDivisionError)
  \/ (~ app_duration_sec == 0 /\ guard_of_rule4
      /\ outcome = Raise AnalysisException)
  \/ (~ app_duration_sec == 0 /\ ~ guard_of_rule4
      /\ exists recs,
           outcome = Ok recs
           /\ recs <> []
           /\ Forall (fun r => rec_app_id r = app_id) recs
           /\ (texts_of recs = [rec_none]
               \/ Forall (fun t => In t [rec_driver_heavy; rec_enable_nee;
                                         rec_python_native])
                         (texts_of recs))).
Proof.
  intros outcome guard_of_rule4. unfold outcome, guard_of_rule4.
  clear outcome guard_of_rule4.
  destruct (Qeq_dec app_duration_sec 0) as [Hz | Hz].
  { left. split; [exact Hz | ].
    unfold generate_recommendations.
    rewrite py_div_zero by exact Hz. reflexivity. }
  right.
  destruct (rule4_cases (100 * driver_wall_clock_sec / app_duration_sec) metadata_df)
    as [[[hc [art [Hh Ha]]] _] | [Hcol E4]].
  { left. split; [exact Hz | split; [exists hc, art; split; assumption | ]].
    eapply generate_recommendations_session_tag; eassumption. }
  right. split; [exact Hz | ]. split.
  { intros [hc [art [Hh Ha]]]. destruct Hcol; congruence. }
  destruct (generate_recommendations _ _ _ _ _ _) as [recs | e] eqn:E.
  - exists recs. split; [reflexivity | ].
    destruct (generate_recommendations_texts _ _ _ _ _ _ _ E)
      as [_ [_ [Hid [[_ Ht] | [Hne Ht]]]]].
    + split; [intros ->; discriminate Ht | ]. split; [exact Hid | left; exact Ht].
    + split; [intros ->; apply Hne; symmetry; exact Ht | ].
      split; [exact Hid | right].
      rewrite Ht. apply Forall_forall. intros t. apply fired_rule_texts.
  - exfalso. unfold generate_recommendations in E.
    rewrite !py_div_ok in E by exact Hz. cbn [bind] in E.
    rewrite E4 in E. discriminate E.
Qed.

(** X10: whenever the advice for Python-native code (rule 3, driver share
    above 99%) is given, the driver-heavy warning (rule 1) is given too and
    the high-concurrency advice (rule 4, read only below 98%) is not. *)
Theorem python_native_advice_implies
  (app_id : string)
  (app_duration_sec driver_wall_clock_sec executor_wall_clock_sec : Q)
  (metadata_df : metadata) (task_df : list task_row) (recs : list Recommendation) :
  generate_recommendations app_id app_duration_sec driver_wall_clock_sec
    executor_wall_clock_sec metadata_df task_df = Ok recs ->
  In rec_python_native (texts_of recs) ->
  In rec_driver_heavy (texts_of recs)
  /\ ~ In rec_high_concurrency (texts_of recs).
Proof.
  intros H H3.
  destruct (generate_recommendations_texts _ _ _ _ _ _ _ H)
    as [_ [_ [_ [[_ Ht] | [_ Ht]]]]]; rewrite Ht in *.
  - destruct H3 as [H3 | []]. discriminate H3.
  - pose proof (other_rules_silent
                  (100 * driver_wall_clock_sec / app_duration_sec)
                  (100 * executor_wall_clock_sec / app_duration_sec)
                  metadata_df) as Hsilent.
    split; [ | exact Hsilent].
    rewrite !in_app_iff in *.
    assert (Hd : 99 < 100 * driver_wall_clock_sec / app_duration_sec).
    { destruct H3 as [H3 | [H3 | H3]].
      - unfold rule1 in H3. destruct (Qltb 70 _); [ | contradiction].
        destruct H3 as [H3 | []]. discriminate H3.
      - unfold rule2 in H3. destruct (column _ _); [ | contradiction].
        destruct (_ && _); [ | contradiction].
        destruct H3 as [H3 | []]. discriminate H3.
      - apply rule3_fires, H3. }
    left. apply rule1_fires. lra.
Qed.

Lemma python_native_advice_implies_witness :
  generate_recommendations "app" 1000 995 5 [] []
  = Ok [mkRec "app" rec_driver_heavy; mkRec "app" rec_python_native]
  /\ In rec_driver_heavy
        (texts_of [mkRec "app" rec_driver_heavy; mkRec "app" rec_python_native])
  /\ ~ In rec_high_concurrency
        (texts_of [mkRec "app" rec_driver_heavy; mkRec "app" rec_python_native]).
Proof.
  assert (H : generate_recommendations "app" 1000 995 5 [] []
              = Ok [mkRec "app" rec_driver_heavy; mkRec "app" rec_python_native])
    by (vm_compute; reflexivity).
  split; [exact H | ].
  apply (python_native_advice_implies "app" 1000 995 5 [] [] _ H).
  right. left. reflexivity.
Defined.

Lemma fired_conditions (driver_pct executor_pct : Q) (metadata_df : metadata) :
  let fired := rule1 driver_pct ++ rule2 executor_pct metadata_df
               ++ rule3 driver_pct in
  (In rec_driver_heavy fired -> 70 < driver_pct)
  /\ (In rec_enable_nee fired -> 50 < executor_pct).
Proof.
  cbv zeta. rewrite !in_app_iff. split.
  - intros [H | [H | H]].
    + apply rule1_fires, H.
    + unfold rule2 in H. destruct (column _ _); [ | contradiction].
      destruct (_ && _); [ | contradiction].
      destruct H as [H | []]. discriminate H.
    + unfold rule3 in H. destruct (Qltb 99 _); [ | contradiction].
      destruct H as [H | []]. discriminate H.
  - intros [H | [H | H]].
    + unfold rule1 in H. destruct (Qltb 70 _); [ | contradiction].
      destruct H as [H | []]. discriminate H.
    + eapply rule2_fires_only, H.
    + unfold rule3 in H. destruct (Qltb 99 _); [ | contradiction].
      destruct H as [H | []]. discriminate H.
Qed.

(** X11: in a run that completes, the driver-heavy warning (driver share
    above 70%) and the advice to enable native execution (executor share
    above 50%) are never given together, because the driver time of
    [compute_stage_task_summary] is the runtime minus the executor time. *)
Theorem driver_heavy_excludes_native_advice
  (event_log_df : event_log) (metadata_df : metadata) (app_id : string)
  (out : run_output) :
  snd (compute_stage_task_summary event_log_df metadata_df app_id) = Ok out ->
  ~ (In rec_driver_heavy (texts_of (run_recommendations_df out))
     /\ In rec_enable_nee (texts_of (run_recommendations_df out))).
Proof.
  intros H [H1 H2].
  apply compute_success_inv in H. cbv zeta in H. destruct H as [_ [_ [_ H]]].
  destruct (generate_recommendations_texts _ _ _ _ _ _ _ H)
    as [Hz [_ [_ [[_ Ht] | [_ Ht]]]]]; rewrite Ht in *.
  - destruct H1 as [H1 | []]. discriminate H1.
  - destruct (fired_conditions
                (100 * (compute_application_runtime event_log_df
                        - compute_executor_wall_clock_time event_log_df)
                 / compute_application_runtime event_log_df)
                (100 * compute_executor_wall_clock_time event_log_df
                 / compute_application_runtime event_log_df)
                metadata_df) as [F1 F2].
    specialize (F1 H1). specialize (F2 H2).
    set (a := compute_application_runtime event_log_df) in *.
    set (x := compute_executor_wall_clock_time event_log_df) in *.
    assert (E : 100 * (a - x) / a + 100 * x / a == 100) by (field; exact Hz).
    lra.
Qed.

Lemma driver_heavy_excludes_native_advice_witness :
  let event_log_df :=
    [ SparkListenerApplicationStart 0;
      SparkListenerTaskEnd (mkTask 0 0 1 "1" (Some 0%Z) (Some 10000%Z) false 10000);
      SparkListenerApplicationEnd 100000 ] in
  let metadata_df := [("spark.native.enabled"%string, VBool false)] in
  exists out,
    snd (compute_stage_task_summary event_log_df metadata_df "app") = Ok out
    /\ texts_of (run_recommendations_df out) = [rec_driver_heavy]
    /\ ~ (In rec_driver_heavy (texts_of (run_recommendations_df out))
          /\ In rec_enable_nee (texts_of (run_recommendations_df out))).
Proof.
  intros event_log_df metadata_df.
  destruct (snd (compute_stage_task_summary event_log_df metadata_df "app"))
    as [out | e] eqn:E.
  - exists out. split; [reflexivity | ].
    split; [ | exact (driver_heavy_excludes_native_advice _ _ _ out E)].
    vm_compute in E. injection E as <-. reflexivity.
  - vm_compute in E. discriminate E.
Defined.

(** ** The metadata frame of the notebook *)

Lemma column_absent (name : string) (metadata_df : metadata) :
  ~ In name (map fst metadata_df) -> column name metadata_df = None.
Proof.
  induction metadata_df as [ | [c v] rest IH]; simpl; intros H; [reflexivity | ].
  destruct (String.eqb c name) eqn:E.
  - apply String.eqb_eq in E. exfalso. apply H. left. exact E.
  - apply IH. intros Hin. apply H. right. exact Hin.
Qed.

Lemma column_present (name : string) (metadata_df : metadata) :
  In name (map fst metadata_df) -> exists v, column name metadata_df = Some v.
Proof.
  induction metadata_df as [ | [c v] rest IH]; simpl; intros H; [contradiction | ].
  destruct (String.eqb c name) eqn:E; [eauto | ].
  apply String.eqb_neq in E. destruct H as [H | H]; [contradiction | auto].
Qed.

(** X12: a metadata frame with the columns that [extract_app_metadata]
    builds has the columns read by rule 2 and not the session-tag column
    read by rule 4: on such a frame the high-concurrency advice is never
    given, whatever the cells hold. *)
Theorem notebook_metadata_never_high_concurrency
  (app_id : string)
  (app_duration_sec driver_wall_clock_sec executor_wall_clock_sec : Q)
  (metadata_df : metadata) (task_df : list task_row) (recs : list Recommendation) :
  map fst metadata_df = app_metadata_columns ->
  generate_recommendations app_id app_duration_sec driver_wall_clock_sec
    executor_wall_clock_sec metadata_df task_df = Ok recs ->
  (exists nee_enabled, column "spark.native.enabled" metadata_df = Some nee_enabled)
  /\ column "spark.synapse.session.tag.HIGH_CONCURRENCY_SESSION_TAG" metadata_df
     = None
  /\ ~ In rec_high_concurrency (texts_of recs).
Proof.
  intros Hcols H.
  assert (Hnone : column "spark.synapse.session.tag.HIGH_CONCURRENCY_SESSION_TAG"
                         metadata_df = None).
  { apply column_absent. rewrite Hcols. unfold app_metadata_columns. simpl.
    intros Hin.
    repeat (destruct Hin as [Hin | Hin]; [discriminate Hin | ]). exact Hin. }
  split; [ | split; [exact Hnone | ]].
  - apply column_present. rewrite Hcols. unfold app_metadata_columns. simpl. tauto.
  - destruct (generate_recommendations_texts _ _ _ _ _ _ _ H)
      as [_ [_ [_ [[_ Ht] | [_ Ht]]]]]; rewrite Ht.
    + intros [Hin | []]. discriminate Hin.
    + apply other_rules_silent.
Qed.

Lemma notebook_metadata_never_high_concurrency_witness :
  let metadata_df :=
    [ ("applicationId", VStr "app"); ("applicationName", VStr "nb");
      ("artifactId", VStr "a1"); ("artifactType", VStr "SynapseNotebook");
      ("capacityId", VStr "c1"); ("executorMax", VNull); ("executorMin", VNull);
      ("fabricEnvId", VNull); ("fabricLivyId", VStr "l1");
      ("fabricTenantId", VStr "t1"); ("fabricWorkspaceId", VStr "w1");
      ("isHighConcurrencyEnabled", VBool false);
      ("spark.native.enabled", VStr "false") ]%string in
  map fst metadata_df = app_metadata_columns
  /\ generate_recommendations "app" 100 40 60 metadata_df []
     = Ok [mkRec "app" rec_enable_nee]
  /\ ~ In rec_high_concurrency (texts_of [mkRec "app" rec_enable_nee]).
Proof.
  intros metadata_df.
  assert (Hcols : map fst metadata_df = app_metadata_columns) by reflexivity.
  assert (H : generate_recommendations "app" 100 40 60 metadata_df []
              = Ok [mkRec "app" rec_enable_nee]) by (vm_compute; reflexivity).
  split; [exact Hcols | split; [exact H | ]].
  exact (proj2 (proj2 (notebook_metadata_never_high_concurrency
                         "app" 100 40 60 metadata_df [] _ Hcols H))).
Defined.

(** ** The rows of the stage summary *)



Section GroupCounts.
Context {R K : Type}.
Variable K_eq_dec : forall a b : K, {a = b} + {a <> b}.
Variable key : R -> K.

Lemma group_sizes_step (r : R) (rows : list R) (keys : list K) :
  NoDup keys ->
  list_sum (map (fun k => List.length (group_rows K_eq_dec key k (r :: rows))) keys)
  = ((if in_dec K_eq_dec (key r) keys then 1 else 0)
     + list_sum (map (fun k => List.length (group_rows K_eq_dec key k rows)) keys))%nat.
Proof.
  induction 1 as [ | k keys Hk Hnd IH]; cbn [map list_sum fold_right].
  - destruct (in_dec K_eq_dec (key r) []); [contradiction | reflexivity].
  - fold (list_sum (map (fun k0 => List.length (group_rows K_eq_dec key k0 (r :: rows))) keys)).
    fold (list_sum (map (fun k0 => List.length (group_rows K_eq_dec key k0 rows)) keys)).
    rewrite IH. clear IH.
    unfold group_rows at 1. cbn [filter].
    fold (group_rows K_eq_dec key k rows).
    destruct (in_dec K_eq_dec (key r) (k :: keys)) as [Hin | Hout];
      destruct (in_dec K_eq_dec (key r) keys) as [Hin' | Hout'];
      destruct (K_eq_dec (key r) k) as [E | E]; cbn [List.length]; try lia.
    + subst k. contradiction.
    + destruct Hin as [Hin | Hin]; [congruence | contradiction].
    + exfalso. apply Hout. left. congruence.
    + exfalso. apply Hout. right. assumption.
    + exfalso. apply Hout. left. congruence.
Qed.

Lemma group_sizes (rows : list R) :
  list_sum (map (fun k => List.length (group_rows K_eq_dec key k rows))
                (group_keys K_eq_dec key rows))
  = List.length rows.
Proof.
  assert (H : forall keys, NoDup keys -> (forall r, In r rows -> In (key r) keys) ->
              list_sum (map (fun k => List.length (group_rows K_eq_dec key k rows)) keys)
              = List.length rows).
  { intros keys Hnd. induction rows as [ | r rows IH]; intros Hcov.
    - cbn [group_rows filter List.length]. clear.
      induction keys as [ | k keys IHk]; simpl; auto.
    - rewrite group_sizes_step by exact Hnd.
      destruct (in_dec K_eq_dec (key r) keys) as [_ | Hout].
      + rewrite IH by (intros; apply Hcov; right; assumption). reflexivity.
      + exfalso. apply Hout, Hcov. left. reflexivity. }
  apply H; [apply group_keys_NoDup | ].
  intros r Hr. apply group_keys_In. exists r. auto.
Qed.

End GroupCounts.

Lemma Zsum_of_nat {A : Type} (f : A -> nat) (l : list A) :
  Zsum (map (fun x => Z.of_nat (f x)) l) = Z.of_nat (list_sum (map f l)).
Proof.
  induction l as [ | x l IH]; [reflexivity | ].
  cbn [map list_sum fold_right Zsum].
  fold (Zsum (map (fun x => Z.of_nat (f x)) l)).
  fold (list_sum (map f l)). rewrite IH. lia.
Qed.

(** X14: every non-failed task is counted in exactly one row of the stage
    summary: the [num_tasks] of the rows add up to the number of rows of
    [tasks_df]. *)
Theorem stage_summary_counts_every_task (event_log_df : event_log) :
  Zsum (map num_tasks (joined_summary_df (tasks_df_of event_log_df)))
  = Z.of_nat (List.length (tasks_df_of event_log_df)).
Proof.
  rewrite joined_summary_df_rows, map_map. cbn [num_tasks summary_row].
  rewrite <- (group_sizes stage_key_eq_dec key_of (tasks_df_of event_log_df)).
  rewrite <- Zsum_of_nat. f_equal. apply map_ext. intros k.
  rewrite length_map. reflexivity.
Qed.


Lemma spark_max_spec (col : list Q) (m : Q) :
  spark_max col = Some m -> In m col /\ Forall (fun x => x <= m) col.
Proof.
  revert m. induction col as [ | x col IH]; cbn [spark_max]; intros m H;
    [discriminate | ].
  destruct (spark_max col) as [m' | ] eqn:E.
  - injection H as <-. destruct (IH m' eq_refl) as [Hin Hup]. split.
    + unfold Qmax, GenericMinMax.gmax.
      destruct (Qcompare x m'); [left | right | left]; auto.
    + constructor; [apply Q.le_max_l | ].
      eapply Forall_impl; [ | exact Hup]. intros y Hy. cbv beta in Hy.
      pose proof (Q.le_max_r x m'). lra.
  - injection H as <-. destruct col as [ | y col].
    + split; [left; reflexivity | repeat constructor; lra].
    + cbn [spark_max] in E. destruct (spark_max col); discriminate E.
Qed.

Lemma spark_max_upper (col : list Q) (m : Q) :
  spark_max col = Some m -> Forall (fun x => x <= m) col.
Proof. intros H. apply (spark_max_spec col m H). Qed.


Lemma joined_row_group (tasks_df : list task_row) (row : StageSummary) :
  In row (joined_summary_df tasks_df) ->
  exists k g,
    row = summary_row k g (Some (stage_duration_row tasks_df k))
    /\ g = group_rows stage_key_eq_dec key_of k tasks_df
    /\ g <> [].
Proof.
  rewrite joined_summary_df_rows, in_map_iff. intros [k [<- Hk]].
  exists k, (group_rows stage_key_eq_dec key_of k tasks_df).
  split; [reflexivity | split; [reflexivity | ]].
  apply group_rows_nonempty, Hk.
Qed.


Lemma count_distinct_incl (xs ys : list string) :
  incl xs ys -> (count_distinct xs <= count_distinct ys)%Z.
Proof.
  intros H. unfold count_distinct. apply Nat2Z.inj_le.
  apply NoDup_incl_length; [apply NoDup_nodup | ].
  intros x Hx. apply nodup_In. apply nodup_In in Hx. apply H, Hx.
Qed.

Lemma count_distinct_le_length (xs : list string) :
  (count_distinct xs <= Z.of_nat (List.length xs))%Z.
Proof.
  unfold count_distinct. apply Nat2Z.inj_le.
  apply NoDup_incl_length; [apply NoDup_nodup | ].
  intros x Hx. apply nodup_In in Hx. exact Hx.
Qed.

Lemma count_distinct_positive (xs : list string) :
  xs <> [] -> (1 <= count_distinct xs)%Z.
Proof.
  destruct xs as [ | x xs]; [congruence | intros _].
  unfold count_distinct.
  assert (Hin : In x (nodup string_dec (x :: xs))) by (apply nodup_In; left; reflexivity).
  destruct (nodup string_dec (x :: xs)); [contradiction | ].
  cbn [List.length]. lia.
Qed.

(** X16: every row of the stage summary, before and after the selection of
    the top rows, reports at least one executor, no more executors than it
    has tasks, and no more than the run's "Max Executors" (the distinct
    executors of all non-failed tasks). *)
Theorem stage_summary_executor_counts (tasks_df : list task_row) :
  Forall (fun row =>
            exists n,
              num_executors row = Some n
              /\ (1 <= n)%Z
              /\ (n <= num_tasks row)%Z
              /\ (n <= count_distinct (map executor_id tasks_df))%Z)
         (joined_summary_df tasks_df ++ final_summary_df_of tasks_df).
Proof.
  apply Forall_forall. intros row Hrow.
  apply in_app_or in Hrow.
  assert (Hin : In row (joined_summary_df tasks_df))
    by (destruct Hrow; [assumption | apply final_summary_incl; assumption]).
  clear Hrow. rename Hin into Hrow.
  destruct (joined_row_group tasks_df row Hrow) as [k [g [-> [Hg Hne]]]].
  cbn [num_executors num_tasks summary_row option_map sd_num_executors
       stage_duration_row].
  rewrite <- Hg. eexists. split; [reflexivity | ].
  split; [ | split].
  - apply count_distinct_positive. intros E. apply map_eq_nil in E. contradiction.
  - rewrite length_map, <- (length_map executor_id). apply count_distinct_le_length.
  - apply count_distinct_incl. intros x Hx.
    apply in_map_iff in Hx. destruct Hx as [r [<- Hr]].
    apply in_map. rewrite Hg in Hr. apply group_rows_In in Hr. apply Hr.
Qed.

(** ** Runs that complete *)

Lemma Qsum_nonneg (xs : list Q) : Forall (fun x => 0 <= x) xs -> 0 <= Qsum xs.
Proof.
  induction 1 as [ | x xs Hx _ IH]; simpl; [lra | ]. cbv beta in Hx. lra.
Qed.

Lemma spark_max_nonneg (col : list Q) :
  Forall (fun x => 0 <= x) col -> 0 <= or_zero (spark_max col).
Proof.
  induction 1 as [ | x col Hx _ IH]; simpl; [lra | ]. cbv beta in Hx.
  destruct (spark_max col) as [m | ]; simpl in *; [ | exact Hx].
  pose proof (Q.le_max_l x m). lra.
Qed.

Lemma critical_path_nonneg (tasks_df : list task_row) :
  Forall (fun r => 0 <= duration_sec r) tasks_df ->
  0 <= or_zero (critical_path_time_sec tasks_df).
Proof.
  intros Hpos. unfold critical_path_time_sec.
  rewrite per_stage_max_column, spark_sum_or_zero, map_map.
  apply Qsum_nonneg. apply Forall_forall. intros q Hq.
  apply in_map_iff in Hq. destruct Hq as [k [<- _]].
  apply spark_max_nonneg. rewrite Forall_forall in *. intros x Hx.
  apply in_map_iff in Hx. destruct Hx as [r [<- Hin]].
  apply group_rows_In in Hin. apply Hpos, Hin.
Qed.

Lemma metrics_of_ok
  (app_duration_sec executor_wall_clock_sec driver_wall_clock_sec : Q)
  (max_executors : Z) (critical_path_sec : option Q) :
  ~ app_duration_sec == 0 -> critical_path_sec <> None ->
  exists metrics,
    metrics_of app_duration_sec executor_wall_clock_sec driver_wall_clock_sec
               max_executors critical_path_sec = Ok metrics
    /\ map fst metrics
       = [ "Application Duration (sec)"; "Executor Wall Clock Time (sec)";
           "Driver Wall Clock Time (sec)"; "Executor Time % of App Time";
           "Driver Time % of App Time"; "Max Executors";
           "Critical Path Time (sec)" ]%string.
Proof.
  intros Hz Hc. unfold metrics_of. rewrite !py_div_ok by exact Hz. cbn [bind].
  destruct critical_path_sec as [c | ]; [ | congruence]. cbn [bind].
  eexists. split; reflexivity.
Qed.

Lemma metrics_of_names
  (app_duration_sec executor_wall_clock_sec driver_wall_clock_sec : Q)
  (max_executors : Z) (critical_path_sec : option Q) (metrics : list (string * Q)) :
  metrics_of app_duration_sec executor_wall_clock_sec driver_wall_clock_sec
             max_executors critical_path_sec = Ok metrics ->
  map fst metrics
  = [ "Application Duration (sec)"; "Executor Wall Clock Time (sec)";
      "Driver Wall Clock Time (sec)"; "Executor Time % of App Time";
      "Driver Time % of App Time"; "Max Executors";
      "Critical Path Time (sec)" ]%string.
Proof.
  unfold metrics_of.
  destruct (py_div _ _) as [p1 | ]; cbn [bind]; [ | discriminate].
  destruct (py_div _ _) as [p2 | ]; cbn [bind]; [ | discriminate].
  destruct critical_path_sec as [c | ]; cbn [bind]; [ | discriminate].
  intros H. injection H as <-. reflexivity.
Qed.

Lemma predictions_of_well_formed
  (tasks_df : list task_row) (executor_wall_clock_sec driver_wall_clock_sec : Q)
  (max_executors : Z) :
  Forall (fun r => 0 <= duration_sec r) tasks_df ->
  0 <= driver_wall_clock_sec ->
  ~ executor_wall_clock_sec + driver_wall_clock_sec == 0 ->
  exists rows,
    snd (predictions_of tasks_df executor_wall_clock_sec driver_wall_clock_sec
                        max_executors (critical_path_time_sec tasks_df))
    = Ok rows
    /\ (List.length rows = 0%nat \/ List.length rows = 5%nat).
Proof.
  intros Hpos Hd Hsum. unfold predictions_of.
  pose proof (critical_path_nonneg tasks_df Hpos) as Hc0.
  pose proof (critical_path_bound tasks_df Hpos) as Hcb.
  destruct (critical_path_time_sec tasks_df) as [c | ] eqn:Ec;
    [ | exists []; split; [reflexivity | left; reflexivity]].
  cbn [or_zero] in *.
  unfold truthy. destruct (Qis_zero c) eqn:Ez; cbn [negb snd];
    [exists []; split; [reflexivity | left; reflexivity] | ].
  apply Qis_zero_false in Ez.
  assert (Hne : tasks_df <> []).
  { intros E. rewrite E, critical_path_empty in Ec. discriminate Ec. }
  destruct (total_task_time_ms_value tasks_df Hne) as [total [Ht Hv]].
  destruct (estimate_runtime_scaling_cases tasks_df executor_wall_clock_sec
              driver_wall_clock_sec max_executors c total Ht)
    as [Hempty [_ Hrows]].
  destruct (Qeq_dec executor_wall_clock_sec 0) as [Hx | Hx].
  - exists []. split; [apply Hempty; right; exact Hx | left; reflexivity].
  - destruct Hrows as [rows [Hr [Hl _]]].
    + lra.
    + exact Hx.
    + intros [Hz | [m [_ Hz]]]; [contradiction | ].
      assert (Hle : c * 1000 <= total) by lra.
      destruct (estimated_executor_sec_range (c * 1000) total max_executors m Hle)
        as [Hlo _].
      assert (E : c * 1000 / 1000 == c) by (field).
      lra.
    + exists rows. split; [exact Hr | right; exact Hl].
Qed.

Lemma final_summary_top_five_lengths (tasks_df : list task_row) :
  tasks_df <> [] ->
  (1 <= List.length (final_summary_df_of tasks_df))%nat
  /\ (List.length (final_summary_df_of tasks_df) <= 5)%nat.
Proof.
  intros Hne. unfold final_summary_df_of.
  rewrite length_firstn, orderBy_length, joined_summary_df_length, groupBy_length.
  destruct tasks_df as [ | r rest]; [congruence | ].
  assert (Hk : In (key_of r) (group_keys stage_key_eq_dec key_of (r :: rest))).
  { apply group_keys_In. exists r. split; [left | ]; reflexivity. }
  destruct (group_keys stage_key_eq_dec key_of (r :: rest)); [contradiction | ].
  cbn [List.length]. lia.
Qed.

Lemma well_formed_run
  (event_log_df : event_log) (metadata_df : metadata) (app_id : string) (s e : Z) :
  hd_error (start_rows event_log_df) = Some s ->
  hd_error (end_rows event_log_df) = Some e ->
  (s < e)%Z ->
  Forall (fun t => forall a b,
            Launch_Time t = Some a -> Finish_Time t = Some b ->
            (s <= a)%Z /\ (b <= e)%Z)
         (task_end_rows event_log_df) ->
  Forall (fun r => 0 <= duration_sec r) (tasks_df_of event_log_df) ->
  tasks_df_of event_log_df <> [] ->
  (column "spark.synapse.session.tag.HIGH_CONCURRENCY_SESSION_TAG" metadata_df = None
   \/ column "artifactType" metadata_df = None) ->
  exists out,
    snd (compute_stage_task_summary event_log_df metadata_df app_id) = Ok out
    /\ map metric (run_metrics_df out)
       = [ "Application Duration (sec)"; "Executor Wall Clock Time (sec)";
           "Driver Wall Clock Time (sec)"; "Executor Time % of App Time";
           "Driver Time % of App Time"; "Max Executors";
           "Critical Path Time (sec)" ]%string
    /\ (List.length (run_predictions_df out) = 0%nat
        \/ List.length (run_predictions_df out) = 5%nat)
    /\ (1 <= List.length (final_summary_df out) <= 5)%nat
    /\ run_recommendations_df out <> [].
Proof.
  intros Hs He Hse Hin Hpos Hne Hcol.
  assert (Hrt : compute_application_runtime event_log_df
                = inject_Z e / 1000 - inject_Z s / 1000).
  { unfold compute_application_runtime.
    destruct (start_rows event_log_df) as [ | s' ss]; [discriminate | ].
    destruct (end_rows event_log_df) as [ | e' es]; [discriminate | ].
    simpl in *. congruence. }
  assert (Ha : 0 < compute_application_runtime event_log_df).
  { rewrite Hrt, div1000_sub. apply Qlt_shift_div_l; [lra | ].
    assert (H : inject_Z 0 < inject_Z (e - s)) by (rewrite <- Zlt_Qlt; lia).
    change (inject_Z 0) with 0 in H. lra. }
  assert (Hw : compute_executor_wall_clock_time event_log_df
               <= compute_application_runtime event_log_df).
  { rewrite Hrt. apply interval_merger_upper.
    - apply div1000_le. rewrite <- Zle_Qle. lia.
    - apply task_intervals_within, Hin. }
  unfold compute_stage_task_summary. cbv zeta.
  set (a := compute_application_runtime event_log_df) in *.
  set (x := compute_executor_wall_clock_time event_log_df) in *.
  set (n := count_distinct (map executor_id (tasks_df_of event_log_df))).
  destruct (predictions_of_well_formed (tasks_df_of event_log_df) x (a - x) n Hpos)
    as [rows [Hrows Hlen]]; [lra | lra | ].
  destruct (predictions_of _ _ _ _ _) as [printed predictions].
  cbn [snd] in *. subst predictions. cbn [bind].
  destruct (critical_path_some _ Hne) as [c Hc].
  destruct (metrics_of_ok a x (a - x) n (critical_path_time_sec (tasks_df_of event_log_df)))
    as [metrics [Hm Hnames]]; [lra | congruence | ].
  rewrite Hm. cbn [bind].
  destruct (generate_recommendations app_id a (a - x) x metadata_df
              (tasks_df_of event_log_df)) as [recs | err] eqn:Er.
  - cbn [bind]. eexists. split; [reflexivity | ].
    cbn [run_metrics_df run_predictions_df final_summary_df run_recommendations_df].
    split; [ | split; [exact Hlen | split]].
    + rewrite map_map. rewrite <- Hnames. apply map_ext. intros [k v]. reflexivity.
    + destruct (final_summary_top_five_lengths (tasks_df_of event_log_df) Hne)
        as [H1 H2]. lia.
    + destruct (generate_recommendations_texts _ _ _ _ _ _ _ Er)
        as [_ [_ [_ [[_ Ht] | [Hf Ht]]]]]; intros ->.
      * discriminate Ht.
      * apply Hf. symmetry. exact Ht.
  - exfalso. unfold generate_recommendations in Er.
    rewrite !py_div_ok in Er by lra. cbn [bind] in Er.
    destruct (rule4_cases (100 * (a - x) / a) metadata_df)
      as [[[hc [art [Hh Hart]]] _] | [_ E4]].
    + destruct Hcol; congruence.
    + rewrite E4 in Er. discriminate Er.
Qed.

(** X17: a run completes when its log is well formed and rule 4 is
    skipped: the first start event precedes the first end event, every task
    with both times runs between them, no run time is negative, at least
    one task did not fail, and the metadata frame lacks the session-tag
    column or the artifact type column (as the frames of
    [extract_app_metadata] do).  The run then yields the 7 named metrics, 0
    or 5 prediction rows, between 1 and 5 stage rows and at least one
    recommendation. *)
Theorem well_formed_run_completes
  (event_log_df : event_log) (metadata_df : metadata) (app_id : string) (s e : Z) :
  hd_error (start_rows event_log_df) = Some s ->
  hd_error (end_rows event_log_df) = Some e ->
  (s < e)%Z ->
  Forall (fun t => forall a b,
            Launch_Time t = Some a -> Finish_Time t = Some b ->
            (s <= a)%Z /\ (b <= e)%Z)
         (task_end_rows event_log_df) ->
  Forall (fun r => 0 <= duration_sec r) (tasks_df_of event_log_df) ->
  tasks_df_of event_log_df <> [] ->
  (column "spark.synapse.session.tag.HIGH_CONCURRENCY_SESSION_TAG" metadata_df = None
   \/ column "artifactType" metadata_df = None) ->
  exists out,
    snd (compute_stage_task_summary event_log_df metadata_df app_id) = Ok out
    /\ map metric (run_metrics_df out)
       = [ "Application Duration (sec)"; "Executor Wall Clock Time (sec)";
           "Driver Wall Clock Time (sec)"; "Executor Time % of App Time";
           "Driver Time % of App Time"; "Max Executors";
           "Critical Path Time (sec)" ]%string
    /\ (List.length (run_predictions_df out) = 0%nat
        \/ List.length (run_predictions_df out) = 5%nat)
    /\ (1 <= List.length (final_summary_df out) <= 5)%nat
    /\ run_recommendations_df out <> [].
Proof. apply well_formed_run. Qed.

Lemma well_formed_run_completes_witness :
  let event_log_df :=
    [ SparkListenerApplicationStart 0;
      SparkListenerTaskEnd (mkTask 0 0 1 "1" (Some 0%Z) (Some 10000%Z) false 10000);
      SparkListenerTaskEnd (mkTask 1 0 2 "2" (Some 30000%Z) (Some 50000%Z) false 20000);
      SparkListenerApplicationEnd 100000 ] in
  hd_error (start_rows event_log_df) = Some 0%Z
  /\ hd_error (end_rows event_log_df) = Some 100000%Z
  /\ tasks_df_of event_log_df <> []
  /\ exists out,
       snd (compute_stage_task_summary event_log_df [] "app") = Ok out
       /\ List.length (run_metrics_df out) = 7%nat
       /\ List.length (run_predictions_df out) = 5%nat.
Proof.
  intros event_log_df.
  assert (Hs : hd_error (start_rows event_log_df) = Some 0%Z) by reflexivity.
  assert (He : hd_error (end_rows event_log_df) = Some 100000%Z) by reflexivity.
  assert (Hse : (0 < 100000)%Z) by lia.
  assert (Hin : Forall (fun t => forall a b,
                          Launch_Time t = Some a -> Finish_Time t = Some b ->
                          (0 <= a)%Z /\ (b <= 100000)%Z)
                       (task_end_rows event_log_df)).
  { repeat constructor; simpl in *; injection H as <-; injection H0 as <-; lia. }
  assert (Hpos : Forall (fun r => 0 <= duration_sec r) (tasks_df_of event_log_df)).
  { repeat constructor; vm_compute; discriminate. }
  assert (Hne : tasks_df_of event_log_df <> []) by (vm_compute; discriminate).
  split; [exact Hs | split; [exact He | split; [exact Hne | ]]].
  assert (Hcol : column "spark.synapse.session.tag.HIGH_CONCURRENCY_SESSION_TAG" []
                 = None \/ column "artifactType" [] = None)
    by (left; reflexivity).
  destruct (well_formed_run_completes event_log_df [] "app" 0 100000
              Hs He Hse Hin Hpos Hne Hcol) as [out [Hout [Hm _]]].
  exists out. split; [exact Hout | ].
  split; [rewrite <- (length_map metric), Hm; reflexivity | ].
  vm_compute in Hout. injection Hout as <-. reflexivity.
Defined.

(** ** The loop over the applications *)

Lemma process_application_append
  (event_log_df : list (string * EventRecord))
  (metadata_df : list (string * metadata)) (st : batch) (app_id : string) :
  process_application event_log_df metadata_df st app_id
  = batch_app st (process_application event_log_df metadata_df empty_batch app_id).
Proof.
  unfold process_application, batch_app.
  destruct (firstn 1 (start_rows (rows_of_app app_id event_log_df))).
  - cbn. rewrite !app_nil_r. reflexivity.
  - destruct (compute_stage_task_summary _ _ _) as [printed [out | e]];
      cbn; rewrite ?app_nil_r; reflexivity.
Qed.

(** X18: the loop treats the applications independently: processing a list
    of application ids from any batch is the same as appending to it, in
    order and field by field, what each application yields on its own from
    the empty batch. *)
Theorem loop_appends_independent_runs
  (event_log_df : list (string * EventRecord))
  (metadata_df : list (string * metadata)) (app_ids : list string) (st : batch) :
  process_applications event_log_df metadata_df app_ids st
  = fold_left batch_app
      (map (process_application event_log_df metadata_df empty_batch) app_ids) st.
Proof.
  unfold process_applications. revert st.
  induction app_ids as [ | app_id rest IH]; intros st; [reflexivity | ].
  cbn [fold_left map]. rewrite IH, process_application_append. reflexivity.
Qed.

Lemma rows_of_app_other {A : Type} (app_id other : string) (x : A)
      (before after : list (string * A)) :
  other <> app_id ->
  rows_of_app app_id (before ++ (other, x) :: after)
  = rows_of_app app_id (before ++ after).
Proof.
  intros Hne. unfold rows_of_app. rewrite !filter_app. cbn [filter fst].
  apply String.eqb_neq in Hne. rewrite Hne. reflexivity.
Qed.

(** X19: an event of another application has no influence on a run: with
    it or without it in the event log, the loop body gives the same batch
    for [app_id]. *)
Theorem run_ignores_other_applications
  (before after : list (string * EventRecord))
  (metadata_df : list (string * metadata)) (st : batch)
  (app_id other : string) (event : EventRecord) :
  other <> app_id ->
  process_application (before ++ (other, event) :: after) metadata_df st app_id
  = process_application (before ++ after) metadata_df st app_id.
Proof.
  intros Hne. unfold process_application.
  rewrite (rows_of_app_other app_id other event before after Hne). reflexivity.
Qed.

Lemma run_ignores_other_applications_witness :
  let before := [("app"%string, SparkListenerApplicationStart 0)] in
  let after := [("app"%string, SparkListenerApplicationEnd 1000)] in
  "other"%string <> "app"%string
  /\ process_application
       (before ++ ("other"%string, SparkListenerApplicationEnd 5) :: after)
       [("app"%string, [])] empty_batch "app"
     = process_application (before ++ after) [("app"%string, [])] empty_batch "app".
Proof.
  intros before after.
  assert (Hne : "other"%string <> "app"%string) by discriminate.
  split; [exact Hne | ].
  exact (run_ignores_other_applications before after [("app"%string, [])]
           empty_batch "app" "other" (SparkListenerApplicationEnd 5) Hne).
Defined.

Lemma process_application_aligned
  (event_log_df : list (string * EventRecord))
  (metadata_df : list (string * metadata)) (st : batch) (app_id : string) :
  batch_aligned st ->
  batch_aligned (process_application event_log_df metadata_df st app_id)
  /\ List.length (summary_dfs (process_application event_log_df metadata_df st app_id))
     = S (List.length (summary_dfs st)).
Proof.
  intros [H1 [H2 [H3 H4]]]. unfold process_application, batch_aligned.
  destruct (firstn 1 (start_rows (rows_of_app app_id event_log_df))).
  - cbn [summary_dfs metrics_df predictions_df recommendations_df].
    rewrite filter_app, !length_app. cbn [filter is_error_row List.length].
    repeat split; try assumption; lia.
  - destruct (compute_stage_task_summary _ _ _) as [printed [out | e]] eqn:E.
    + cbn [summary_dfs metrics_df predictions_df recommendations_df].
      rewrite filter_app, !length_app. cbn [filter is_error_row List.length].
      repeat split; try lia.
      apply Forall_app. split; [exact H4 | ]. constructor; [ | constructor].
      pose proof (f_equal snd E) as Hs. cbn [snd] in Hs.
      apply compute_success_inv in Hs. cbv zeta in Hs.
      destruct Hs as [_ [_ [[metrics [Hm Hr]] _]]].
      rewrite Hr, length_map, <- (length_map fst), (metrics_of_names _ _ _ _ _ _ Hm).
      reflexivity.
    + cbn [summary_dfs metrics_df predictions_df recommendations_df].
      rewrite filter_app, !length_app. cbn [filter is_error_row List.length].
      repeat split; try assumption; lia.
Qed.

Lemma process_applications_aligned
  (event_log_df : list (string * EventRecord))
  (metadata_df : list (string * metadata)) (app_ids : list string) (st : batch) :
  batch_aligned st ->
  batch_aligned (process_applications event_log_df metadata_df app_ids st)
  /\ List.length (summary_dfs (process_applications event_log_df metadata_df app_ids st))
     = (List.length (summary_dfs st) + List.length app_ids)%nat.
Proof.
  unfold process_applications. revert st.
  induction app_ids as [ | app_id rest IH]; intros st Hst; cbn [fold_left List.length].
  - split; [exact Hst | lia].
  - destruct (process_application_aligned event_log_df metadata_df st app_id Hst)
      as [Hst' Hlen].
    destruct (IH _ Hst') as [Hfinal Hlen']. split; [exact Hfinal | ].
    rewrite Hlen', Hlen. lia.
Qed.

Lemma empty_batch_aligned : batch_aligned empty_batch.
Proof. repeat split; constructor. Qed.

(** X20: at the end of the loop every application id has exactly one entry
    in [summary_dfs], its stage rows or its error row, and the metrics, the
    predictions and the recommendations hold one frame for each run that is
    not an error row. *)
Theorem notebook_one_entry_per_application
  (event_log_df : list (string * EventRecord))
  (metadata_df : list (string * metadata)) :
  let b := run_notebook event_log_df metadata_df in
  List.length (summary_dfs b) = List.length (app_ids_of metadata_df)
  /\ NoDup (app_ids_of metadata_df)
  /\ List.length (metrics_df b) = List.length (predictions_df b)
  /\ List.length (predictions_df b) = List.length (recommendations_df b)
  /\ (List.length (metrics_df b) + List.length (filter is_error_row (summary_dfs b))
      = List.length (summary_dfs b))%nat.
Proof.
  intros b. unfold b, run_notebook.
  destruct (process_applications_aligned event_log_df metadata_df
              (app_ids_of metadata_df) empty_batch empty_batch_aligned)
    as [[H1 [H2 [H3 _]]] Hlen].
  split; [exact Hlen | ]. split; [apply NoDup_nodup | ].
  repeat split; assumption.
Qed.

Lemma fold_app_length {A : Type} (rest : list (list A)) (first : list A) :
  List.length (fold_left (fun acc df => acc ++ df) rest first)
  = (List.length first + list_sum (map (@List.length A) rest))%nat.
Proof.
  revert first. induction rest as [ | df rest IH]; intros first;
    cbn [fold_left map list_sum fold_right].
  - lia.
  - rewrite IH, length_app. fold (list_sum (map (@List.length A) rest)). lia.
Qed.

Lemma list_sum_constant {A : Type} (f : A -> nat) (n : nat) (l : list A) :
  Forall (fun x => f x = n) l -> list_sum (map f l) = (n * List.length l)%nat.
Proof.
  induction 1 as [ | x l Hx _ IH]; cbn [map list_sum fold_right List.length]; [lia | ].
  fold (list_sum (map f l)). rewrite IH, Hx. lia.
Qed.

Lemma union_all_length {A : Type} (dfs : list (list A)) (n : nat) :
  Forall (fun frame => List.length frame = n) dfs ->
  match union_all dfs with
  | Combined rows => List.length rows = (n * List.length dfs)%nat
  | IndexError => dfs = []
  end.
Proof.
  destruct dfs as [ | first rest]; [reflexivity | ]. cbn [union_all].
  intros H. apply Forall_cons_iff in H. destruct H as [Hx Hr].
  rewrite fold_app_length, (list_sum_constant _ n rest Hr), Hx.
  cbn [List.length]. lia.
Qed.

Lemma filter_all_length {A : Type} (f : A -> bool) (l : list A) :
  List.length (filter f l) = List.length l <-> Forall (fun x => f x = true) l.
Proof.
  induction l as [ | x l IH]; cbn [filter List.length].
  - split; [constructor | reflexivity].
  - pose proof (filter_length_le f l) as Hle.
    destruct (f x) eqn:E; cbn [List.length]; split; intros H.
    + constructor; [exact E | apply IH; lia].
    + inversion H; subst. apply IH in H3. lia.
    + lia.
    + inversion H; subst. congruence.
Qed.

(** X21: after the loop the combined metrics frame is built from
    [metrics_df[0]]: this raises an IndexError exactly when every entry of
    [summary_dfs] is an error row (no run completed, or there was no
    application at all); otherwise the combined frame holds 7 rows for each
    run that completed. *)
Theorem metrics_combination
  (event_log_df : list (string * EventRecord))
  (metadata_df : list (string * metadata)) :
  let b := run_notebook event_log_df metadata_df in
  match metrics_df_combined b with
  | IndexError => Forall (fun frame => is_error_row frame = true) (summary_dfs b)
  | Combined rows =>
      ~ Forall (fun frame => is_error_row frame = true) (summary_dfs b)
      /\ List.length rows
         = (7 * (List.length (summary_dfs b)
                 - List.length (filter is_error_row (summary_dfs b))))%nat
  end.
Proof.
  intros b. unfold b, run_notebook, metrics_df_combined.
  destruct (process_applications_aligned event_log_df metadata_df
              (app_ids_of metadata_df) empty_batch empty_batch_aligned)
    as [[_ [_ [H3 H4]]] _].
  set (st := process_applications event_log_df metadata_df
               (app_ids_of metadata_df) empty_batch) in *.
  destruct (metrics_df st) as [ | first rest] eqn:E.
  - cbn [union_all]. cbn [List.length] in H3. apply filter_all_length. lia.
  - pose proof (union_all_length (first :: rest) 7 H4) as Hu.
    cbn [union_all] in *. cbn [List.length] in H3, Hu. split.
    + intros Hall. apply filter_all_length in Hall. lia.
    + rewrite Hu. lia.
Qed.

(** ** Completed runs *)

Lemma for_each_length {A B : Type} (f : A -> result B) (xs : list A) (ys : list B) :
  for_each f xs = Ok ys -> List.length ys = List.length xs.
Proof.
  revert ys. induction xs as [ | x xs IH]; intros ys; cbn [for_each].
  - intros H. injection H as <-. reflexivity.
  - destruct (f x) as [y | ]; cbn [bind]; [ | discriminate].
    destruct (for_each f xs) as [ys' | ]; cbn [bind]; [ | discriminate].
    intros H. injection H as <-. cbn [List.length]. rewrite (IH ys' eq_refl).
    reflexivity.
Qed.

Lemma estimate_runtime_scaling_length
  (task_df : list task_row) (executor_wall_clock_sec driver_wall_clock_sec : Q)
  (current_executors : Z) (critical_path_sec : Q) (rows : list ScalingPrediction) :
  estimate_runtime_scaling task_df executor_wall_clock_sec driver_wall_clock_sec
                           current_executors critical_path_sec = Ok rows ->
  List.length rows = 0%nat \/ List.length rows = 5%nat.
Proof.
  unfold estimate_runtime_scaling.
  destruct (spark_sum _) as [total | ]; cbn [bind]; [ | discriminate].
  destruct (Qis_zero total || Qis_zero executor_wall_clock_sec).
  - intros H. injection H as <-. left. reflexivity.
  - destruct (py_div _ _) as [ratio | ]; cbn [bind]; [ | discriminate].
    intros H. apply for_each_length in H. right. exact H.
Qed.

Lemma completed_run
  (event_log_df : event_log) (metadata_df : metadata) (app_id : string)
  (out : run_output) :
  snd (compute_stage_task_summary event_log_df metadata_df app_id) = Ok out ->
  ~ compute_application_runtime event_log_df == 0
  /\ tasks_df_of event_log_df <> []
  /\ map metric (run_metrics_df out)
     = [ "Application Duration (sec)"; "Executor Wall Clock Time (sec)";
         "Driver Wall Clock Time (sec)"; "Executor Time % of App Time";
         "Driver Time % of App Time"; "Max Executors";
         "Critical Path Time (sec)" ]%string
  /\ Forall (fun m => metric_app_id m = app_id) (run_metrics_df out)
  /\ (List.length (run_predictions_df out) = 0%nat
      \/ List.length (run_predictions_df out) = 5%nat)
  /\ (1 <= List.length (final_summary_df out) <= 5)%nat
  /\ run_recommendations_df out <> [].
Proof.
  intros H. apply compute_success_inv in H. cbv zeta in H.
  destruct H as [Hsum [Hpred [[metrics [Hm Hrows]] Hrec]]].
  destruct (generate_recommendations_texts _ _ _ _ _ _ _ Hrec)
    as [Hz [_ [_ Htexts]]].
  assert (Hne : tasks_df_of event_log_df <> []).
  { intros E. rewrite E, critical_path_empty in Hm.
    rewrite metrics_of_absent_critical_path in Hm by exact Hz. discriminate Hm. }
  split; [exact Hz | split; [exact Hne | ]].
  split; [ | split; [ | split; [ | split]]].
  - rewrite Hrows, map_map, <- (metrics_of_names _ _ _ _ _ _ Hm).
    apply map_ext. intros [k v]. reflexivity.
  - rewrite Hrows. apply Forall_forall. intros m Hin.
    apply in_map_iff in Hin. destruct Hin as [[k v] [<- _]]. reflexivity.
  - unfold predictions_of in Hpred.
    destruct (critical_path_time_sec (tasks_df_of event_log_df)) as [c | ].
    + destruct (truthy (Some c)); cbn [snd] in Hpred.
      * eapply estimate_runtime_scaling_length, Hpred.
      * injection Hpred as <-. left. reflexivity.
    + cbn [snd] in Hpred. injection Hpred as <-. left. reflexivity.
  - rewrite Hsum.
    destruct (final_summary_top_five_lengths _ Hne) as [H1 H2]. lia.
  - destruct Htexts as [[_ Ht] | [Hf Ht]]; intros E; rewrite E in Ht.
    + discriminate Ht.
    + apply Hf. symmetry. exact Ht.
Qed.

(** X22: a run completes only if its application runtime is not zero and
    at least one of its tasks did not fail; a completed run always carries
    the 7 named metrics under its application id, 0 or 5 prediction rows,
    between 1 and 5 stage rows and at least one recommendation. *)
Theorem completed_run_shape
  (event_log_df : event_log) (metadata_df : metadata) (app_id : string)
  (out : run_output) :
  snd (compute_stage_task_summary event_log_df metadata_df app_id) = Ok out ->
  ~ compute_application_runtime event_log_df == 0
  /\ tasks_df_of event_log_df <> []
  /\ map metric (run_metrics_df out)
     = [ "Application Duration (sec)"; "Executor Wall Clock Time (sec)";
         "Driver Wall Clock Time (sec)"; "Executor Time % of App Time";
         "Driver Time % of App Time"; "Max Executors";
         "Critical Path Time (sec)" ]%string
  /\ Forall (fun m => metric_app_id m = app_id) (run_metrics_df out)
  /\ (List.length (run_predictions_df out) = 0%nat
      \/ List.length (run_predictions_df out) = 5%nat)
  /\ (1 <= List.length (final_summary_df out) <= 5)%nat
  /\ run_recommendations_df out <> [].
Proof. apply completed_run. Qed.

Lemma completed_run_shape_witness :
  let event_log_df :=
    [ SparkListenerApplicationStart 0;
      SparkListenerTaskEnd (mkTask 0 0 1 "1" (Some 0%Z) (Some 10000%Z) false 10000);
      SparkListenerApplicationEnd 100000 ] in
  exists out,
    snd (compute_stage_task_summary event_log_df [] "app") = Ok out
    /\ ~ compute_application_runtime event_log_df == 0
    /\ List.length (run_metrics_df out) = 7%nat.
Proof.
  intros event_log_df.
  destruct (snd (compute_stage_task_summary event_log_df [] "app"))
    as [out | e] eqn:E.
  - exists out. split; [reflexivity | ].
    destruct (completed_run_shape event_log_df [] "app" out E) as [Hz [_ [Hm _]]].
    split; [exact Hz | ]. rewrite <- (length_map metric), Hm. reflexivity.
  - vm_compute in E. discriminate E.
Defined.

(** ** The critical path and the longest task *)

Lemma Qsum_ge_member (xs : list Q) (x : Q) :
  Forall (fun y => 0 <= y) xs -> In x xs -> x <= Qsum xs.
Proof.
  induction 1 as [ | y xs Hy Hxs IH]; cbn [In Qsum fold_right]; [contradiction | ].
  fold (Qsum xs). cbv beta in Hy. pose proof (Qsum_nonneg xs Hxs).
  intros [-> | Hin]; [lra | ]. specialize (IH Hin). lra.
Qed.

Lemma critical_path_ge_task (tasks_df : list task_row) (r : task_row) :
  Forall (fun r => 0 <= duration_sec r) tasks_df ->
  In r tasks_df ->
  duration_sec r <= or_zero (critical_path_time_sec tasks_df).
Proof.
  intros Hpos Hr. unfold critical_path_time_sec.
  rewrite per_stage_max_column, spark_sum_or_zero, map_map.
  set (stage_max := fun k =>
         or_zero (spark_max (map duration_sec
                                 (group_rows Z.eq_dec stage_id k tasks_df)))).
  assert (Hmax : duration_sec r <= stage_max (stage_id r)).
  { unfold stage_max.
    assert (Hin : In (duration_sec r)
                     (map duration_sec
                          (group_rows Z.eq_dec stage_id (stage_id r) tasks_df))).
    { apply in_map, group_rows_In. split; [exact Hr | reflexivity]. }
    destruct (spark_max _) as [m | ] eqn:E.
    - apply spark_max_upper in E. rewrite Forall_forall in E. apply E, Hin.
    - destruct (spark_max_some
                  (map duration_sec
                       (group_rows Z.eq_dec stage_id (stage_id r) tasks_df)))
        as [m Hm]; [intros E'; rewrite E' in Hin; contradiction | congruence]. }
  assert (Hsum : stage_max (stage_id r)
                 <= Qsum (map stage_max (group_keys Z.eq_dec stage_id tasks_df))).
  { apply Qsum_ge_member.
    - apply Forall_forall. intros q Hq. apply in_map_iff in Hq.
      destruct Hq as [k [<- _]]. unfold stage_max. apply spark_max_nonneg.
      rewrite Forall_forall in *. intros x Hx.
      apply in_map_iff in Hx. destruct Hx as [t [<- Hin]].
      apply group_rows_In in Hin. apply Hpos, Hin.
    - apply in_map, group_keys_In. exists r. split; [exact Hr | reflexivity]. }
  lra.
Qed.

(** X23: when no run time is negative, the critical path is at least the
    run time of every single task, hence of the longest one. *)
Theorem critical_path_covers_longest_task (tasks_df : list task_row) :
  Forall (fun r => 0 <= duration_sec r) tasks_df ->
  match critical_path_time_sec tasks_df with
  | Some critical_path_sec =>
      Forall (fun r => duration_sec r <= critical_path_sec) tasks_df
  | None => tasks_df = []
  end.
Proof.
  intros Hpos.
  destruct tasks_df as [ | r0 rest] eqn:E; [reflexivity | ]. rewrite <- E in *.
  assert (Hne : tasks_df <> []) by (rewrite E; discriminate).
  destruct (critical_path_some tasks_df Hne) as [c Hc]. rewrite Hc.
  apply Forall_forall. intros r Hr.
  pose proof (critical_path_ge_task tasks_df r Hpos Hr) as H.
  rewrite Hc in H. exact H.
Qed.

Lemma critical_path_covers_longest_task_witness :
  let tasks_df :=
    [ mkRow 0 0 1 "1" None None false 10;
      mkRow 0 0 2 "2" None None false 30;
      mkRow 1 0 3 "1" None None false 20 ] in
  Forall (fun r => 0 <= duration_sec r) tasks_df
  /\ match critical_path_time_sec tasks_df with
     | Some critical_path_sec =>
         Forall (fun r => duration_sec r <= critical_path_sec) tasks_df
     | None => tasks_df = []
     end.
Proof.
  intros tasks_df.
  assert (Hpos : Forall (fun r => 0 <= duration_sec r) tasks_df).
  { repeat constructor; simpl; lra. }
  split; [exact Hpos | exact (critical_path_covers_longest_task tasks_df Hpos)].
Defined.

(** ** The application runtime *)

(** X24: the application runtime is read from the first start event and
    the first end event only: once a log holds both, events appended to it
    (further start or end events included) do not change the runtime. *)
Theorem runtime_reads_first_events (event_log_df later : event_log) (s e : Z) :
  hd_error (start_rows event_log_df) = Some s ->
  hd_error (end_rows event_log_df) = Some e ->
  compute_application_runtime event_log_df == inject_Z (e - s) / 1000
  /\ compute_application_runtime (event_log_df ++ later)
     = compute_application_runtime event_log_df.
Proof.
  intros Hs He. unfold compute_application_runtime, start_rows, end_rows in *.
  rewrite !flat_map_app.
  destruct (flat_map _ event_log_df) as [ | s' ss]; [discriminate | ].
  destruct (flat_map _ event_log_df) as [ | e' es]; [discriminate | ].
  cbn in Hs, He. injection Hs as ->. injection He as ->.
  cbn [app firstn]. split; [apply div1000_sub | reflexivity].
Qed.

Lemma runtime_reads_first_events_witness :
  let event_log_df :=
    [SparkListenerApplicationStart 1000; SparkListenerApplicationEnd 61000] in
  let later := [SparkListenerApplicationEnd 99000; SparkListenerApplicationStart 5] in
  hd_error (start_rows event_log_df) = Some 1000%Z
  /\ hd_error (end_rows event_log_df) = Some 61000%Z
  /\ compute_application_runtime (event_log_df ++ later) == 60.
Proof.
  intros event_log_df later.
  assert (Hs : hd_error (start_rows event_log_df) = Some 1000%Z) by reflexivity.
  assert (He : hd_error (end_rows event_log_df) = Some 61000%Z) by reflexivity.
  split; [exact Hs | split; [exact He | ]].
  destruct (runtime_reads_first_events event_log_df later 1000 61000 Hs He)
    as [Hv Heq].
  rewrite Heq, Hv. vm_compute. reflexivity.
Defined.

(** ** The critical path without rounding

    The rational embedding of lines 291-293 computes, on the non-failed
    tasks, the integer critical path of the specification divided by 1000:
    the two differ in the program only by the rounding of its doubles. *)

Lemma group_keys_select_task (tasks : list TaskRecord) :
  group_keys Z.eq_dec stage_id (map select_task tasks)
  = group_keys Z.eq_dec Stage_ID tasks.
Proof. unfold group_keys. rewrite map_map. reflexivity. Qed.

Lemma group_rows_select_task (k : Z) (tasks : list TaskRecord) :
  group_rows Z.eq_dec stage_id k (map select_task tasks)
  = map select_task (group_rows Z.eq_dec Stage_ID k tasks).
Proof.
  unfold group_rows. induction tasks as [ | t tasks IH]; [reflexivity | ].
  cbn [map filter]. cbn [stage_id select_task].
  destruct (Z.eq_dec (Stage_ID t) k); cbn [map]; rewrite IH; reflexivity.
Qed.

Lemma stage_max_without_rounding (stage_tasks : list TaskRecord) :
  or_zero (spark_max (map duration_sec (map select_task stage_tasks)))
  == inject_Z (CriticalPathSpec.max_run_time_ms stage_tasks) / 1000.
Proof.
  induction stage_tasks as [ | t rest IH]; [vm_compute; reflexivity | ].
  cbn [map spark_max CriticalPathSpec.max_run_time_ms].
  destruct rest as [ | t' rest'].
  - cbn [map spark_max or_zero duration_sec select_task]. reflexivity.
  - set (rest := t' :: rest') in *.
    destruct (spark_max_some (map duration_sec (map select_task rest)))
      as [m Hm]; [discriminate | ].
    rewrite Hm in *. cbn [or_zero] in *.
    cbn [duration_sec select_task].
    set (M := CriticalPathSpec.max_run_time_ms rest) in *.
    destruct (Z.max_spec (Executor_Run_Time t) M) as [[Hlt E] | [Hle E]]; rewrite E.
    + rewrite Q.max_r; [exact IH | ]. rewrite IH.
      apply div1000_le. rewrite <- Zle_Qle. lia.
    + rewrite Q.max_l; [reflexivity | ]. rewrite IH.
      apply div1000_le. rewrite <- Zle_Qle. lia.
Qed.

Lemma Qsum_scale {A : Type} (f : A -> Q) (c : Q) (l : list A) :
  Qsum (map f l) * c == Qsum (map (fun x => f x * c) l).
Proof.
  induction l as [ | x l IH]; cbn [map Qsum fold_right]; [lra | ].
  fold (Qsum (map f l)). fold (Qsum (map (fun x => f x * c) l)).
  rewrite <- IH. lra.
Qed.

Lemma critical_path_without_rounding (tasks : list TaskRecord) :
  or_zero (critical_path_time_sec (map select_task tasks)) * 1000
  == inject_Z (CriticalPathSpec.critical_path_ms tasks).
Proof.
  unfold critical_path_time_sec, CriticalPathSpec.critical_path_ms, groupBy.
  rewrite per_stage_max_column, spark_sum_or_zero, inject_Zsum, !map_map.
  rewrite group_keys_select_task, Qsum_scale.
  apply Qsum_map_eq. intros k _. cbv beta iota.
  rewrite group_rows_select_task, stage_max_without_rounding. field.
Qed.
